(** * RedDoor: slugs, feeds, comments and counters

    A shallow embedding of the client-side logic of the RedDoor web
    application (React components over a managed data store) together with
    the properties its specification states about it.

    Source files embedded here:
    - [src/components/CreateCity.tsx]    ([generateSlug], [handleSubmit])
    - [src/components/CreateChannel.tsx] ([generateSlug], [handleSubmit])
    - [src/components/CreatePost.tsx]    ([handleSubmit])
    - [src/components/PostList.tsx]      ([fetchPosts], [fetchComments],
                                          [handleCommentSubmit])
    - [src/components/CityView.tsx]      (channel summaries)
    - [amplify/data/resource.ts]         (the schema: row types) *)

From Stdlib Require Import String Ascii.
From Stdlib Require Import List ZArith NArith Bool Lia.
From Stdlib Require Import Permutation Sorted.
From Stdlib Require QArith Qround.
Import ListNotations.

Set Implicit Arguments.

(** ** JavaScript strings

    A JavaScript string is a sequence of UTF-16 code units; a code unit is
    modelled as its number. *)

Module JS.

Local Open Scope N_scope.

Definition jsstring := list N.

(** Reading an ASCII literal as a JavaScript string. *)
Definition lit (s : string) : jsstring :=
  map N_of_ascii (list_ascii_of_string s).

Definition jsstring_eqb (a b : jsstring) : bool :=
  if list_eq_dec N.eq_dec a b then true else false.

Definition hyphen : N := 45.

Definition isHyphen (c : N) : bool := c =? hyphen.
Definition isLower (c : N) : bool := (97 <=? c) && (c <=? 122).
Definition isUpper (c : N) : bool := (65 <=? c) && (c <=? 90).
Definition isDigit (c : N) : bool := (48 <=? c) && (c <=? 57).

(** The regular-expression class [\s], which is also the set that
    [String.prototype.trim] removes: WhiteSpace and LineTerminator code
    points (TAB, LF, VT, FF, CR, SP, NBSP, U+1680, U+2000..U+200A, U+2028,
    U+2029, U+202F, U+205F, U+3000, U+FEFF). *)
Definition isWhiteSpace (c : N) : bool :=
  ((9 <=? c) && (c <=? 13)) || (c =? 32) || (c =? 160) || (c =? 5760)
  || ((8192 <=? c) && (c <=? 8202)) || (c =? 8232) || (c =? 8233)
  || (c =? 8239) || (c =? 8287) || (c =? 12288) || (c =? 65279).

(** [String.prototype.toLowerCase], one code unit at a time.  The ASCII
    capitals move to their small letters.  Two code points outside ASCII
    have a lower-case form that contains an ASCII letter: U+0130 (capital I
    with dot) becomes [i] followed by U+0307, and U+212A (Kelvin sign)
    becomes [k].  Every other cased letter has a lower-case form made of
    code units outside ASCII that are not white space; such code units are
    kept as they are here, which changes nothing for [generateSlug]: its
    next step deletes each of them, whichever it is. *)
Definition lowerUnit (c : N) : list N :=
  if isUpper c then [c + 32]
  else if c =? 304 then [105; 775]
  else if c =? 8490 then [107]
  else [c].

Definition toLowerCase (s : jsstring) : jsstring := flat_map lowerUnit s.

(** The patterns that occur in the source: a character class, and a
    character class under [+]. *)
Inductive pattern : Type :=
| Class (p : N -> bool)
| ClassPlus (p : N -> bool).

(** [s.replace(/pat/g, repl)]: the scan goes left to right; where the
    pattern matches, the (greedy) match is replaced by [repl] and the scan
    resumes after it.  [inMatch] records that the previous code unit belongs
    to a [+] match that has already been replaced. *)
Fixpoint replaceFrom (pat : pattern) (repl : jsstring) (inMatch : bool)
  (s : jsstring) : jsstring :=
  match s with
  | [] => []
  | c :: rest =>
      match pat with
      | Class p =>
          if p c then repl ++ replaceFrom pat repl false rest
          else c :: replaceFrom pat repl false rest
      | ClassPlus p =>
          if p c then
            (if inMatch then [] else repl) ++ replaceFrom pat repl true rest
          else c :: replaceFrom pat repl false rest
      end
  end.

Definition replace (pat : pattern) (repl : jsstring) (s : jsstring) : jsstring :=
  replaceFrom pat repl false s.

Fixpoint trimStart (s : jsstring) : jsstring :=
  match s with
  | c :: rest => if isWhiteSpace c then trimStart rest else s
  | [] => []
  end.

Definition trimEnd (s : jsstring) : jsstring := rev (trimStart (rev s)).

(** [String.prototype.trim]. *)
Definition trim (s : jsstring) : jsstring := trimEnd (trimStart s).

(** Truthiness of a string: the empty string is falsy. *)
Definition truthy (s : jsstring) : bool :=
  match s with [] => false | _ => true end.

End JS.

Import JS.

(** ** Slug generation ([CreateCity.tsx] and [CreateChannel.tsx])

    Both components carry the same function:
<<
    name.toLowerCase()
        .replace(/[^a-z0-9\s-]/g, "")
        .replace(/\s+/g, "-")
        .replace(/-+/g, "-")
        .trim()
>> *)

(** The class [[^a-z0-9\s-]]. *)
Definition notSlugChar (c : N) : bool :=
  negb (isLower c || isDigit c || isWhiteSpace c || isHyphen c).

Definition generateSlug (name : jsstring) : jsstring :=
  trim
    (replace (ClassPlus isHyphen) [hyphen]
       (replace (ClassPlus isWhiteSpace) [hyphen]
          (replace (Class notSlugChar) []
             (toLowerCase name)))).

(** The alphabet of a slug, and the test for two hyphens in a row. *)
Definition slugChar (c : N) : bool := isLower c || isDigit c || isHyphen c.

Fixpoint doubled (s : jsstring) : bool :=
  match s with
  | c :: (d :: _) as rest => (isHyphen c && isHyphen d) || doubled rest
  | _ => false
  end.

(** ** The data model ([amplify/data/resource.ts])

    Identifiers are opaque to the components; the store hands out a fresh
    one with every row it creates.  A datetime is the number of milliseconds
    since the epoch that [new Date(s).getTime()] gives for it.  Fields the
    schema declares without [required()] are nullable. *)

Definition Id := N.
Definition DateTime := Z.

Inductive PostType : Type := TextPost | ImagePost | LinkPost.
Inductive VoteType : Type := Upvote | Downvote.

Definition VoteType_eqb (a b : VoteType) : bool :=
  match a, b with
  | Upvote, Upvote | Downvote, Downvote => true
  | _, _ => false
  end.

Module UserProfile.
Record t : Type := mk {
  id : Id;
  username : jsstring;
  displayName : option jsstring
}.
End UserProfile.

Module Location.
Record t : Type := mk {
  id : Id;
  name : jsstring;
  slug : jsstring;
  description : option jsstring;
  state : option jsstring;
  country : option jsstring;
  isActive : option bool;
  createdAt : DateTime
}.
End Location.

Module Channel.
Record t : Type := mk {
  id : Id;
  locationId : Id;
  name : jsstring;
  slug : jsstring;
  description : option jsstring;
  rules : option jsstring;
  color : option jsstring;
  isActive : option bool;
  createdAt : DateTime;
  createdBy : Id;
  memberCount : option Z;
  postCount : option Z
}.
End Channel.

Module Post.
Record t : Type := mk {
  id : Id;
  locationId : Id;
  channelId : Id;
  authorId : Id;
  title : jsstring;
  content : option jsstring;
  type : option PostType;
  linkUrl : option jsstring;
  linkTitle : option jsstring;
  linkDescription : option jsstring;
  isActive : option bool;
  createdAt : DateTime;
  updatedAt : DateTime;
  upvotes : option Z;
  downvotes : option Z;
  score : option Z;
  commentCount : option Z
}.
End Post.

Module Comment.
Record t : Type := mk {
  id : Id;
  postId : Id;
  authorId : Id;
  parentCommentId : option Id;
  content : jsstring;
  isActive : option bool;
  createdAt : DateTime;
  updatedAt : DateTime;
  upvotes : option Z;
  downvotes : option Z;
  score : option Z
}.
End Comment.

Module Vote.
Record t : Type := mk {
  id : Id;
  userId : Id;
  postId : option Id;
  commentId : option Id;
  type : option VoteType;
  createdAt : DateTime
}.
End Vote.

Module ChannelMembership.
Record t : Type := mk {
  id : Id;
  userId : Id;
  channelId : Id
}.
End ChannelMembership.

(** ** The store behind [client.models]

    [list] with an equality filter is modelled as returning every row that
    matches, in creation order; [create] appends the row under a fresh
    identifier and succeeds. *)

Record Store : Type := mkStore {
  users : list UserProfile.t;
  locations : list Location.t;
  channels : list Channel.t;
  memberships : list ChannelMembership.t;
  posts : list Post.t;
  comments : list Comment.t;
  votes : list Vote.t;
  nextId : Id
}.

Definition emptyStore : Store := mkStore [] [] [] [] [] [] [] 1%N.

(** [x || 0] on a nullable number, [x || undefined] on a string. *)
Definition orZero (x : option Z) : Z :=
  match x with Some v => v | None => 0%Z end.

Definition orUndefined (s : jsstring) : option jsstring :=
  if truthy s then Some s else None.

(** The filter [{ isActive: { eq: true } }]. *)
Definition isTrue (b : option bool) : bool :=
  match b with Some true => true | _ => false end.

Definition setLocations (st : Store) (l : list Location.t) (n : Id) : Store :=
  mkStore (users st) l (channels st) (memberships st) (posts st)
          (comments st) (votes st) n.

Definition setChannels (st : Store) (l : list Channel.t) (n : Id) : Store :=
  mkStore (users st) (locations st) l (memberships st) (posts st)
          (comments st) (votes st) n.

Definition setPosts (st : Store) (l : list Post.t) (n : Id) : Store :=
  mkStore (users st) (locations st) (channels st) (memberships st) l
          (comments st) (votes st) n.

Definition setComments (st : Store) (l : list Comment.t) (n : Id) : Store :=
  mkStore (users st) (locations st) (channels st) (memberships st) (posts st)
          l (votes st) n.

Definition setVotes (st : Store) (l : list Vote.t) (n : Id) : Store :=
  mkStore (users st) (locations st) (channels st) (memberships st) (posts st)
          (comments st) l n.

(** ** [Array.prototype.sort] with a comparator

    The sort is stable, and for a consistent comparator its result is fixed
    by the language: the elements in comparator order, equal ones in their
    original order.  A stable insertion sort computes that result. *)

Module JSArray.

Fixpoint insert (A : Type) (cmp : A -> A -> Z) (x : A) (l : list A) : list A :=
  match l with
  | [] => [x]
  | y :: ys => if (cmp x y <=? 0)%Z then x :: l else y :: insert cmp x ys
  end.

Definition sort (A : Type) (cmp : A -> A -> Z) (l : list A) : list A :=
  fold_right (insert cmp) [] l.

End JSArray.

(** ** Form outcomes

    A handler ends either in [setError(message)] or in [navigate(path)].
    The messages of the source are:
    - [NameRequired]: "City name is required" / "Channel name is required"
    - [StateRequired]: "State is required"
    - [LocationNotFound]: "Location not found"
    - [DuplicateSlug]: "A city with this name already exists. Please choose
      a different name." / "A channel with this name already exists in this
      city. Please choose a different name."
    - [TitleRequired]: "Post title is required"
    - [ContentRequired]: "Post content is required for text posts"
    - [LinkUrlRequired]: "Link URL is required for link posts"
    - [ChannelRequired]: "Please select a channel for your post" *)

Inductive FormError : Type :=
| NameRequired
| StateRequired
| LocationNotFound
| DuplicateSlug
| TitleRequired
| ContentRequired
| LinkUrlRequired
| ChannelRequired.

Inductive Outcome : Type :=
| Rejected (e : FormError)
| Navigated (path : jsstring).

(** The [{ id, name, slug }] summary a component keeps of the city it is
    in. *)
Record LocationRef : Type := mkLocationRef {
  ref_id : Id;
  ref_name : jsstring;
  ref_slug : jsstring
}.

(** ** Loading a page

    A page's loader ends either in [setError(message)] or with the data it
    puts in the component state. *)

Inductive Fetched (A : Type) : Type :=
| Failed (message : jsstring)
| Found (a : A).

Arguments Failed {A} message.

(** [client.models.Location.list] with the filter
    [{ slug: { eq: citySlug }, isActive: { eq: true } }], which the city,
    channel, create-channel and create-post pages all start with. *)
Definition locationsBySlug (citySlug : jsstring) (st : Store)
  : list Location.t :=
  filter (fun l => jsstring_eqb (Location.slug l) citySlug
                   && isTrue (Location.isActive l))
         (locations st).

(** ** [CreateCity.tsx] *)

Module CreateCity.

Record FormData : Type := mkForm {
  name : jsstring;
  state : jsstring;
  country : jsstring;
  description : jsstring
}.

Definition handleSubmit (now : DateTime) (formData : FormData) (st : Store)
  : Store * Outcome :=
  if negb (truthy (trim (name formData))) then (st, Rejected NameRequired)
  else if negb (truthy (trim (state formData))) then (st, Rejected StateRequired)
  else
    let slug := generateSlug (name formData) in
    let existingLocation :=
      filter (fun l => jsstring_eqb (Location.slug l) slug) (locations st) in
    if (0 <? length existingLocation)%nat then (st, Rejected DuplicateSlug)
    else
      let row :=
        Location.mk (nextId st) (trim (name formData)) slug
          (orUndefined (trim (description formData)))
          (Some (trim (state formData)))
          (Some (trim (country formData)))
          (Some true) now in
      (setLocations st (locations st ++ [row]) (N.succ (nextId st)),
       Navigated (lit "/city/" ++ slug)).

(** The handler in its two awaited parts.  [precheck] is everything up to
    the test of the [Location.list] answer: the error the handler stops
    with, if any.  [create] is the [Location.create] call and the
    navigation after it.  The store may change between the two calls. *)
Definition precheck (formData : FormData) (st : Store) : option FormError :=
  if negb (truthy (trim (name formData))) then Some NameRequired
  else if negb (truthy (trim (state formData))) then Some StateRequired
  else
    let slug := generateSlug (name formData) in
    let existingLocation :=
      filter (fun l => jsstring_eqb (Location.slug l) slug) (locations st) in
    if (0 <? length existingLocation)%nat then Some DuplicateSlug else None.

Definition create (now : DateTime) (formData : FormData) (st : Store)
  : Store * Outcome :=
  let slug := generateSlug (name formData) in
  let row :=
    Location.mk (nextId st) (trim (name formData)) slug
      (orUndefined (trim (description formData)))
      (Some (trim (state formData)))
      (Some (trim (country formData)))
      (Some true) now in
  (setLocations st (locations st ++ [row]) (N.succ (nextId st)),
   Navigated (lit "/city/" ++ slug)).

(** Two submissions that overlap: the pre-checks of both are answered from
    the store [st] before the create of either is applied. *)
Definition overlapped (now1 : DateTime) (form1 : FormData) (now2 : DateTime)
  (form2 : FormData) (st : Store) : Store :=
  match precheck form1 st, precheck form2 st with
  | None, None => fst (create now2 form2 (fst (create now1 form1 st)))
  | None, Some _ => fst (create now1 form1 st)
  | Some _, None => fst (create now2 form2 st)
  | Some _, Some _ => st
  end.

End CreateCity.

(** ** [CreateChannel.tsx] *)

Module CreateChannel.

Record FormData : Type := mkForm {
  name : jsstring;
  description : jsstring;
  rules : jsstring;
  color : jsstring
}.

Definition handleSubmit (now : DateTime) (userId : Id) (citySlug : jsstring)
  (location : option LocationRef) (formData : FormData) (st : Store)
  : Store * Outcome :=
  if negb (truthy (trim (name formData))) then (st, Rejected NameRequired)
  else
    match location with
    | None => (st, Rejected LocationNotFound)
    | Some loc =>
        let slug := generateSlug (name formData) in
        let existingChannel :=
          filter (fun c => jsstring_eqb (Channel.slug c) slug
                           && (Channel.locationId c =? ref_id loc)%N)
                 (channels st) in
        if (0 <? length existingChannel)%nat then (st, Rejected DuplicateSlug)
        else
          let row :=
            Channel.mk (nextId st) (ref_id loc) (trim (name formData)) slug
              (orUndefined (trim (description formData)))
              (orUndefined (trim (rules formData)))
              (Some (color formData))
              (Some true) now userId (Some 0%Z) (Some 0%Z) in
          (setChannels st (channels st ++ [row]) (N.succ (nextId st)),
           Navigated (lit "/city/" ++ citySlug ++ lit "/channel/" ++ slug))
    end.

(** The handler in its two awaited parts, as for a city: [precheck] up to
    the test of the [Channel.list] answer, [create] from [Channel.create]
    on. *)
Definition precheck (location : option LocationRef) (formData : FormData)
  (st : Store) : option FormError :=
  if negb (truthy (trim (name formData))) then Some NameRequired
  else
    match location with
    | None => Some LocationNotFound
    | Some loc =>
        let slug := generateSlug (name formData) in
        let existingChannel :=
          filter (fun c => jsstring_eqb (Channel.slug c) slug
                           && (Channel.locationId c =? ref_id loc)%N)
                 (channels st) in
        if (0 <? length existingChannel)%nat then Some DuplicateSlug
        else None
    end.

Definition create (now : DateTime) (userId : Id) (citySlug : jsstring)
  (loc : LocationRef) (formData : FormData) (st : Store) : Store * Outcome :=
  let slug := generateSlug (name formData) in
  let row :=
    Channel.mk (nextId st) (ref_id loc) (trim (name formData)) slug
      (orUndefined (trim (description formData)))
      (orUndefined (trim (rules formData)))
      (Some (color formData))
      (Some true) now userId (Some 0%Z) (Some 0%Z) in
  (setChannels st (channels st ++ [row]) (N.succ (nextId st)),
   Navigated (lit "/city/" ++ citySlug ++ lit "/channel/" ++ slug)).

(** Two submissions on pages of the same city that overlap. *)
Definition overlapped (now1 : DateTime) (user1 : Id) (form1 : FormData)
  (now2 : DateTime) (user2 : Id) (form2 : FormData) (citySlug : jsstring)
  (loc : LocationRef) (st : Store) : Store :=
  match precheck (Some loc) form1 st, precheck (Some loc) form2 st with
  | None, None =>
      fst (create now2 user2 citySlug loc form2
             (fst (create now1 user1 citySlug loc form1 st)))
  | None, Some _ => fst (create now1 user1 citySlug loc form1 st)
  | Some _, None => fst (create now2 user2 citySlug loc form2 st)
  | Some _, Some _ => st
  end.

(** The loader of the page: the city the channel will belong to. *)
Definition fetchLocation (citySlug : jsstring) (st : Store)
  : Fetched LocationRef :=
  match locationsBySlug citySlug st with
  | [] => Failed (lit "City not found")
  | first :: _ =>
      Found (mkLocationRef (Location.id first) (Location.name first)
                           (Location.slug first))
  end.

(** The effect of the page, [if (citySlug) fetchLocation()]. *)
Definition load (citySlug : option jsstring) (st : Store)
  : option (Fetched LocationRef) :=
  match citySlug with
  | Some ((_ :: _) as slug) => Some (fetchLocation slug st)
  | _ => None
  end.

End CreateChannel.

(** ** [CreatePost.tsx] *)

Module CreatePost.

Inductive FormType : Type := TextForm | LinkForm.

Record FormData : Type := mkForm {
  title : jsstring;
  content : jsstring;
  linkUrl : jsstring;
  linkTitle : jsstring;
  linkDescription : jsstring
}.

Definition isText (t : FormType) : bool :=
  match t with TextForm => true | LinkForm => false end.

Definition isLink (t : FormType) : bool := negb (isText t).

(** [selectedChannel] is [None] for the empty selection.  The handler does
    not pass [createdAt] and [updatedAt]; the store stamps the row ([now]). *)
Definition handleSubmit (now : DateTime) (userId : Id) (citySlug : jsstring)
  (channelSlug : option jsstring) (locationData : option LocationRef)
  (selectedChannel : option Id) (postType : FormType) (formData : FormData)
  (st : Store) : Store * Outcome :=
  if negb (truthy (trim (title formData))) then (st, Rejected TitleRequired)
  else if isText postType && negb (truthy (trim (content formData)))
  then (st, Rejected ContentRequired)
  else if isLink postType && negb (truthy (trim (linkUrl formData)))
  then (st, Rejected LinkUrlRequired)
  else
    match selectedChannel, locationData with
    | None, _ => (st, Rejected ChannelRequired)
    | Some _, None => (st, Rejected LocationNotFound)
    | Some channel, Some loc =>
        let row :=
          Post.mk (nextId st) (ref_id loc) channel userId
            (trim (title formData))
            (if isText postType then Some (trim (content formData)) else None)
            (Some (if isText postType then TextPost else LinkPost))
            (if isLink postType then Some (trim (linkUrl formData)) else None)
            (if isLink postType then orUndefined (trim (linkTitle formData))
             else None)
            (if isLink postType
             then orUndefined (trim (linkDescription formData)) else None)
            (Some true) now now
            (Some 0%Z) (Some 0%Z) (Some 0%Z) (Some 0%Z) in
        (setPosts st (posts st ++ [row]) (N.succ (nextId st)),
         Navigated
           match channelSlug with
           | Some ch => lit "/city/" ++ citySlug ++ lit "/channel/" ++ ch
           | None => lit "/city/" ++ citySlug
           end)
    end.

(** The loader of the page: the city, the active channels of the city as
    the options of the channel selector, and the channel selected from the
    start when the page was opened from a channel. *)
Record ChannelOption : Type := mkOption {
  option_id : Id;
  option_name : jsstring;
  option_slug : jsstring
}.

Record Page : Type := mkPage {
  page_location : LocationRef;
  page_channels : list ChannelOption;
  page_selected : option Id
}.

Definition fetchLocationAndChannels (citySlug : jsstring)
  (channelSlug : option jsstring) (st : Store) : Fetched Page :=
  match locationsBySlug citySlug st with
  | [] => Failed (lit "City not found")
  | location :: _ =>
      let channelData :=
        map (fun channel =>
               mkOption (Channel.id channel) (Channel.name channel)
                        (Channel.slug channel))
            (filter (fun c => (Channel.locationId c =? Location.id location)%N
                              && isTrue (Channel.isActive c))
                    (channels st)) in
      let selected :=
        match channelSlug with
        | Some ((_ :: _) as slug) =>
            option_map option_id
              (find (fun c => jsstring_eqb (option_slug c) slug) channelData)
        | _ => None
        end in
      Found (mkPage (mkLocationRef (Location.id location)
                       (Location.name location) (Location.slug location))
                    channelData selected)
  end.

(** The channel selector: option 0 is the empty "Select a channel..."
    entry, option [S i] the [i]-th channel.  The selector is shown only when
    the city has channels and is disabled when the page was opened from a
    channel; [pick] is the option the user chooses, if any. *)
Definition optionValue (page : Page) (index : nat) : option Id :=
  match index with
  | O => None
  | S i => option_map option_id (nth_error (page_channels page) i)
  end.

Definition selectChannel (channelSlug : option jsstring) (page : Page)
  (pick : option nat) : option Id :=
  match pick, page_channels page, channelSlug with
  | None, _, _ => page_selected page
  | Some _, [], _ => page_selected page
  | Some _, _ :: _, Some (_ :: _) => page_selected page
  | Some index, _ :: _, _ =>
      if (index <=? length (page_channels page))%nat
      then optionValue page index
      else page_selected page
  end.

(** Opening the page, choosing a channel and submitting the form, with no
    other write to the store in between. *)
Definition openAndSubmit (now : DateTime) (userId : Id) (citySlug : jsstring)
  (channelSlug : option jsstring) (pick : option nat) (postType : FormType)
  (formData : FormData) (st : Store) : Store * Outcome :=
  match fetchLocationAndChannels citySlug channelSlug st with
  | Failed _ =>
      handleSubmit now userId citySlug channelSlug None None postType
        formData st
  | Found page =>
      handleSubmit now userId citySlug channelSlug
        (Some (page_location page)) (selectChannel channelSlug page pick)
        postType formData st
  end.

End CreatePost.

(** ** [PostList.tsx] *)

Module PostList.

Record Author : Type := mkAuthor {
  author_id : Id;
  author_username : jsstring;
  author_displayName : option jsstring
}.

Record ChannelInfo : Type := mkChannelInfo {
  channel_id : Id;
  channel_name : jsstring;
  channel_slug : jsstring
}.

(** The component's [Post] and [Comment] interfaces (the image fields, which
    no form fills in, are left out). *)
Module PostView.
Record t : Type := mk {
  id : Id;
  title : jsstring;
  content : option jsstring;
  type : option PostType;
  linkUrl : option jsstring;
  linkTitle : option jsstring;
  linkDescription : option jsstring;
  upvotes : Z;
  downvotes : Z;
  score : Z;
  commentCount : Z;
  createdAt : DateTime;
  author : Author;
  channel : option ChannelInfo
}.
End PostView.

Module CommentView.
Record t : Type := mk {
  id : Id;
  content : jsstring;
  upvotes : Z;
  downvotes : Z;
  score : Z;
  createdAt : DateTime;
  author : Author
}.
End CommentView.

Definition orUnknown (s : option jsstring) : jsstring :=
  match s with
  | Some ((_ :: _) as u) => u
  | _ => lit "Unknown"
  end.

Definition nonEmpty (s : option jsstring) : option jsstring :=
  match s with
  | Some ((_ :: _) as u) => Some u
  | _ => None
  end.

Definition authorOf (st : Store) (authorId : Id) : Author :=
  let authorResponse :=
    find (fun u => (UserProfile.id u =? authorId)%N) (users st) in
  mkAuthor authorId
    (orUnknown (option_map UserProfile.username authorResponse))
    (nonEmpty (match authorResponse with
               | Some u => UserProfile.displayName u
               | None => None
               end)).

(** The filter of [fetchPosts]: active posts of the channel, else of the
    city, else all. *)
Definition postFilter (locationId channelId : option Id) (p : Post.t) : bool :=
  isTrue (Post.isActive p)
  && match channelId, locationId with
     | Some c, _ => (Post.channelId p =? c)%N
     | None, Some l => (Post.locationId p =? l)%N
     | None, None => true
     end.

Definition postSummary (channelId : option Id) (st : Store) (post : Post.t)
  : PostView.t :=
  let channelInfo :=
    match channelId with
    | Some _ => None
    | None =>
        match find (fun c => (Channel.id c =? Post.channelId post)%N)
                   (channels st) with
        | Some c => Some (mkChannelInfo (Channel.id c) (Channel.name c)
                                        (Channel.slug c))
        | None => None
        end
    end in
  let commentCount :=
    Z.of_nat (length (filter (fun c => (Comment.postId c =? Post.id post)%N)
                             (comments st))) in
  PostView.mk (Post.id post) (Post.title post)
    (nonEmpty (Post.content post)) (Post.type post)
    (nonEmpty (Post.linkUrl post)) (nonEmpty (Post.linkTitle post))
    (nonEmpty (Post.linkDescription post))
    (orZero (Post.upvotes post)) (orZero (Post.downvotes post))
    (orZero (Post.score post)) commentCount (Post.createdAt post)
    (authorOf st (Post.authorId post)) channelInfo.

(** The comparator of [postData.sort]. *)
Definition comparePosts (a b : PostView.t) : Z :=
  if negb (PostView.score a =? PostView.score b)%Z
  then (PostView.score b - PostView.score a)%Z
  else (PostView.createdAt b - PostView.createdAt a)%Z.

(** The list [fetchPosts] hands to [setPosts]. *)
Definition fetchPosts (locationId channelId : option Id) (st : Store)
  : list PostView.t :=
  let postData :=
    map (postSummary channelId st)
        (filter (postFilter locationId channelId) (posts st)) in
  JSArray.sort comparePosts postData.

Definition commentFilter (postId : Id) (c : Comment.t) : bool :=
  (Comment.postId c =? postId)%N && isTrue (Comment.isActive c).

Definition commentSummary (st : Store) (comment : Comment.t) : CommentView.t :=
  CommentView.mk (Comment.id comment) (Comment.content comment)
    (orZero (Comment.upvotes comment)) (orZero (Comment.downvotes comment))
    (orZero (Comment.score comment)) (Comment.createdAt comment)
    (authorOf st (Comment.authorId comment)).

(** The comparator of [commentData.sort]. *)
Definition compareComments (a b : CommentView.t) : Z :=
  if negb (CommentView.score a =? CommentView.score b)%Z
  then (CommentView.score b - CommentView.score a)%Z
  else (CommentView.createdAt a - CommentView.createdAt b)%Z.

(** The sorted [commentData] of [fetchComments]. *)
Definition commentData (postId : Id) (st : Store) : list CommentView.t :=
  JSArray.sort compareComments
    (map (commentSummary st) (filter (commentFilter postId) (comments st))).

(** The part of the component state the comment handlers touch: the
    [comments] and [newComments] objects, keyed by post. *)
Record UI : Type := mkUI {
  ui_comments : Id -> option (list CommentView.t);
  ui_newComments : Id -> option jsstring
}.

Definition assign (V : Type) (prev : Id -> option V) (key : Id) (v : V)
  : Id -> option V :=
  fun k => if (k =? key)%N then Some v else prev k.

Definition emptyUI : UI := mkUI (fun _ => None) (fun _ => None).

(** [setComments((prev) => ({ ...prev, [postId]: commentData }))]. *)
Definition fetchComments (postId : Id) (st : Store) (ui : UI) : UI :=
  mkUI (assign (ui_comments ui) postId (commentData postId st))
       (ui_newComments ui).

(** [createdAt] and [updatedAt] are the two clock readings of the call.
    The fields the call leaves out take the schema's defaults
    ([isActive] true, counters 0) and [parentCommentId] stays unset. *)
Definition handleCommentSubmit (createdAt updatedAt : DateTime)
  (user : option Id) (postId : Id) (st : Store) (ui : UI) : Store * UI :=
  match user, ui_newComments ui postId with
  | Some userId, Some text =>
      if truthy (trim text) then
        let row :=
          Comment.mk (nextId st) postId userId None (trim text)
            (Some true) createdAt updatedAt
            (Some 0%Z) (Some 0%Z) (Some 0%Z) in
        let st' := setComments st (comments st ++ [row]) (N.succ (nextId st)) in
        let ui' := mkUI (ui_comments ui)
                        (assign (ui_newComments ui) postId []) in
        (st', fetchComments postId st' ui')
      else (st, ui)
  | _, _ => (st, ui)
  end.

(** The expanded posts (a [Set] of post identifiers, here its membership
    test) beside the comment state. *)
Record Panel : Type := mkPanel {
  expandedPosts : Id -> bool;
  panel_ui : UI
}.

(** [newExpanded.delete(postId)] and [newExpanded.add(postId)]. *)
Definition setMember (s : Id -> bool) (key : Id) (b : bool) : Id -> bool :=
  fun k => if (k =? key)%N then b else s k.

(** Collapsing a post only removes it from the set; expanding it adds it
    and, when [comments[postId]] is still undefined, loads its comments (a
    loaded list, even an empty one, is truthy and kept). *)
Definition toggleComments (postId : Id) (st : Store) (panel : Panel) : Panel :=
  if expandedPosts panel postId then
    mkPanel (setMember (expandedPosts panel) postId false) (panel_ui panel)
  else
    mkPanel (setMember (expandedPosts panel) postId true)
      (match ui_comments (panel_ui panel) postId with
       | None => fetchComments postId st (panel_ui panel)
       | Some _ => panel_ui panel
       end).

(** The whole state of the list: the [posts] shown and the comment state.
    [fetchPosts] runs from the effect on [[locationId, channelId]] only,
    that is when the list is mounted (or its scope changes);
    [handleCommentSubmit] calls [setNewComments] and [fetchComments] and
    never [setPosts]. *)
Record Screen : Type := mkScreen {
  screen_posts : list PostView.t;
  screen_ui : UI
}.

Definition mount (locationId channelId : option Id) (st : Store) : Screen :=
  mkScreen (fetchPosts locationId channelId st) emptyUI.

Definition submitOnScreen (createdAt updatedAt : DateTime) (user : option Id)
  (postId : Id) (st : Store) (screen : Screen) : Store * Screen :=
  let result :=
    handleCommentSubmit createdAt updatedAt user postId st (screen_ui screen) in
  (fst result, mkScreen (screen_posts screen) (snd result)).

End PostList.

(** ** [CityView.tsx]: the channel cards of a city

    A card also carries the channel's description and colour, copied from
    the row; they are left out here. *)

Module CityView.

Record ChannelCard : Type := mkCard {
  card_id : Id;
  card_name : jsstring;
  card_slug : jsstring;
  card_postCount : Z;
  card_memberCount : Z
}.

Definition channelData (locationId : Id) (st : Store) : list ChannelCard :=
  map (fun channel =>
         mkCard (Channel.id channel) (Channel.name channel)
           (Channel.slug channel)
           (Z.of_nat (length (filter
              (fun p => (Post.channelId p =? Channel.id channel)%N)
              (posts st))))
           (Z.of_nat (length (filter
              (fun m => (ChannelMembership.channelId m =? Channel.id channel)%N)
              (memberships st)))))
      (filter (fun c => (Channel.locationId c =? locationId)%N
                        && isTrue (Channel.isActive c))
              (channels st)).

Record LocationInfo : Type := mkInfo {
  info_id : Id;
  info_name : jsstring;
  info_slug : jsstring;
  info_description : option jsstring;
  info_state : option jsstring
}.

(** The loader of the page: the first active city with the slug and the
    cards of its channels.  The page calls it from its effect, [load]
    below, and only there. *)
Definition fetchLocationAndChannels (citySlug : jsstring) (st : Store)
  : Fetched (LocationInfo * list ChannelCard) :=
  match locationsBySlug citySlug st with
  | [] => Failed (lit "City not found")
  | locationData :: _ =>
      Found (mkInfo (Location.id locationData) (Location.name locationData)
               (Location.slug locationData)
               (PostList.nonEmpty (Location.description locationData))
               (PostList.nonEmpty (Location.state locationData)),
             channelData (Location.id locationData) st)
  end.

(** The effect of the page, [if (citySlug) fetchLocationAndChannels()]: the
    route parameter may be undefined, and an empty one is falsy; then the
    loader does not run and the page stays as it was ([None]). *)
Definition load (citySlug : option jsstring) (st : Store)
  : option (Fetched (LocationInfo * list ChannelCard)) :=
  match citySlug with
  | Some ((_ :: _) as slug) => Some (fetchLocationAndChannels slug st)
  | _ => None
  end.

End CityView.

(** ** [ChannelView.tsx] *)

Module ChannelView.

Record ChannelInfo : Type := mkChannel {
  channel_id : Id;
  channel_name : jsstring;
  channel_slug : jsstring;
  channel_description : option jsstring;
  channel_rules : option jsstring;
  channel_postCount : Z;
  channel_memberCount : Z;
  channel_color : option jsstring
}.

(** The loader of the page: the city, then the first active channel of the
    city with the slug; the counts shown are the stored counters.  The page
    calls it from its effect, [load] below, and only there. *)
Definition fetchLocationAndChannel (citySlug channelSlug : jsstring)
  (st : Store) : Fetched (LocationRef * ChannelInfo) :=
  match locationsBySlug citySlug st with
  | [] => Failed (lit "City not found")
  | locationData :: _ =>
      match filter (fun c => jsstring_eqb (Channel.slug c) channelSlug
                             && (Channel.locationId c
                                 =? Location.id locationData)%N
                             && isTrue (Channel.isActive c))
                   (channels st) with
      | [] => Failed (lit "Channel not found")
      | channelData :: _ =>
          Found (mkLocationRef (Location.id locationData)
                   (Location.name locationData) (Location.slug locationData),
                 mkChannel (Channel.id channelData) (Channel.name channelData)
                   (Channel.slug channelData)
                   (PostList.nonEmpty (Channel.description channelData))
                   (PostList.nonEmpty (Channel.rules channelData))
                   (orZero (Channel.postCount channelData))
                   (orZero (Channel.memberCount channelData))
                   (PostList.nonEmpty (Channel.color channelData)))
      end
  end.

(** The effect of the page,
    [if (citySlug && channelSlug) fetchLocationAndChannel()]. *)
Definition load (citySlug channelSlug : option jsstring) (st : Store)
  : option (Fetched (LocationRef * ChannelInfo)) :=
  match citySlug, channelSlug with
  | Some ((_ :: _) as city), Some ((_ :: _) as channel) =>
      Some (fetchLocationAndChannel city channel st)
  | _, _ => None
  end.

End ChannelView.

(** ** Parent links between comments

    [parentOf cs c] is the [parentCommentId] of the comment with identifier
    [c]; [ancestor cs n c] follows [n] parent links from [c]. *)

Definition parentOf (cs : list Comment.t) (c : Id) : option Id :=
  match find (fun x => (Comment.id x =? c)%N) cs with
  | Some x => Comment.parentCommentId x
  | None => None
  end.

Fixpoint ancestor (cs : list Comment.t) (n : nat) (c : Id) : option Id :=
  match n with
  | O => Some c
  | S k =>
      match parentOf cs c with
      | Some p => ancestor cs k p
      | None => None
      end
  end.

(** A comment set has a cycle when some comment is its own ancestor. *)
Definition hasCycle (cs : list Comment.t) : Prop :=
  exists c n, In c (map Comment.id cs) /\ ancestor cs (S n) c = Some c.

Definition noParentLinks (cs : list Comment.t) : Prop :=
  Forall (fun c => Comment.parentCommentId c = None) cs.

(** The comments a sequence of submissions leaves in the store; a
    submission is the signed-in user (if any), the post and the text typed
    for that post, together with its clock readings. *)
Record Submission : Type := mkSubmission {
  sub_createdAt : DateTime;
  sub_updatedAt : DateTime;
  sub_user : option Id;
  sub_postId : Id;
  sub_text : option jsstring
}.

Definition submit (s : Submission) (state : Store * PostList.UI)
  : Store * PostList.UI :=
  let ui := PostList.mkUI (PostList.ui_comments (snd state))
              (fun k => if (k =? sub_postId s)%N then sub_text s
                        else PostList.ui_newComments (snd state) k) in
  PostList.handleCommentSubmit (sub_createdAt s) (sub_updatedAt s)
    (sub_user s) (sub_postId s) (fst state) ui.

Definition submitAll (l : list Submission) (state : Store * PostList.UI)
  : Store * PostList.UI :=
  fold_left (fun acc s => submit s acc) l state.

(** ** [helpers/formatDate.ts]

    The age of a date is a whole number of milliseconds; the quotients the
    function forms from it are taken here as exact rationals.  The function
    only compares them with small whole numbers and rounds them down, and a
    double-precision quotient of whole numbers in the range of dates gives
    the same answers.  [toLocaleDateString] depends on the locale of the
    browser and is a parameter.  Dates that do not parse are not covered. *)

Module FormatDate.

Fixpoint digits (u : Decimal.uint) : jsstring :=
  match u with
  | Decimal.Nil => []
  | Decimal.D0 r => 48%N :: digits r
  | Decimal.D1 r => 49%N :: digits r
  | Decimal.D2 r => 50%N :: digits r
  | Decimal.D3 r => 51%N :: digits r
  | Decimal.D4 r => 52%N :: digits r
  | Decimal.D5 r => 53%N :: digits r
  | Decimal.D6 r => 54%N :: digits r
  | Decimal.D7 r => 55%N :: digits r
  | Decimal.D8 r => 56%N :: digits r
  | Decimal.D9 r => 57%N :: digits r
  end.

(** A whole number that is not negative, as a template literal prints it. *)
Definition decimal (n : Z) : jsstring := digits (N.to_uint (Z.to_N n)).

(** [x < n] for a whole number [n]. *)
Definition lessThan (x : QArith_base.Q) (n : Z) : bool :=
  negb (QArith_base.Qle_bool (QArith_base.inject_Z n) x).

Section Locale.

Variable toLocaleDateString : DateTime -> jsstring.

Definition formatDate (now date : DateTime) : jsstring :=
  let diffInMs := (now - date)%Z in
  let diffInMinutes :=
    QArith_base.Qdiv (QArith_base.inject_Z diffInMs)
                     (QArith_base.inject_Z (1000 * 60)) in
  let diffInHours :=
    QArith_base.Qdiv (QArith_base.inject_Z diffInMs)
                     (QArith_base.inject_Z (1000 * 60 * 60)) in
  let diffInDays :=
    QArith_base.Qdiv (QArith_base.inject_Z diffInMs)
                     (QArith_base.inject_Z (1000 * 60 * 60 * 24)) in
  let diffInWeeks := QArith_base.Qdiv diffInDays (QArith_base.inject_Z 7) in
  if (diffInMs <? 0)%Z then toLocaleDateString date
  else if lessThan diffInMinutes 1 then lit "Just now"
  else if lessThan diffInMinutes 60
  then decimal (Qround.Qfloor diffInMinutes) ++ lit "m ago"
  else if lessThan diffInHours 24
  then decimal (Qround.Qfloor diffInHours) ++ lit "h ago"
  else if lessThan diffInDays 7
  then decimal (Qround.Qfloor diffInDays) ++ lit "d ago"
  else if lessThan diffInWeeks 4
  then decimal (Qround.Qfloor diffInWeeks) ++ lit "w ago"
  else toLocaleDateString date.

End Locale.

End FormatDate.

(** The row a post form stores. *)
Definition postRow (now : DateTime) (userId : Id) (loc : LocationRef)
  (channel : Id) (postType : CreatePost.FormType)
  (formData : CreatePost.FormData) (st : Store) : Post.t :=
  Post.mk (nextId st) (ref_id loc) channel userId
    (trim (CreatePost.title formData))
    (if CreatePost.isText postType
     then Some (trim (CreatePost.content formData)) else None)
    (Some (if CreatePost.isText postType then TextPost else LinkPost))
    (if CreatePost.isLink postType
     then Some (trim (CreatePost.linkUrl formData)) else None)
    (if CreatePost.isLink postType
     then orUndefined (trim (CreatePost.linkTitle formData)) else None)
    (if CreatePost.isLink postType
     then orUndefined (trim (CreatePost.linkDescription formData)) else None)
    (Some true) now now (Some 0%Z) (Some 0%Z) (Some 0%Z) (Some 0%Z).

(** The name an entry shows for its author is the user name of the
    author's profile, or "Unknown" when there is no such profile or its user
    name is empty. *)
Definition authorNamed (st : Store) (a : PostList.Author) : Prop :=
  PostList.author_username a
  = match find (fun u => (UserProfile.id u =? PostList.author_id a)%N)
               (users st) with
    | Some profile =>
        if truthy (UserProfile.username profile)
        then UserProfile.username profile
        else lit "Unknown"
    | None => lit "Unknown"
    end.

(** ** The forms as actions on the store

    One submission of one of the four forms, with the arguments its handler
    receives, and the store it leaves.  [perform] runs a handler from its
    first line to its last on one store, and [performAll] runs submissions
    one after another: no other write falls between the calls a handler
    awaits.  Submissions that overlap are modelled apart ([overlapped] in
    the two form modules). *)

Inductive Action : Type :=
| SubmitCity (now : DateTime) (formData : CreateCity.FormData)
| SubmitChannel (now : DateTime) (userId : Id) (citySlug : jsstring)
    (location : option LocationRef) (formData : CreateChannel.FormData)
| SubmitPost (now : DateTime) (userId : Id) (citySlug : jsstring)
    (channelSlug : option jsstring) (locationData : option LocationRef)
    (selectedChannel : option Id) (postType : CreatePost.FormType)
    (formData : CreatePost.FormData)
| SubmitComment (s : Submission).

Definition perform (a : Action) (st : Store) : Store :=
  match a with
  | SubmitCity now formData =>
      fst (CreateCity.handleSubmit now formData st)
  | SubmitChannel now userId citySlug location formData =>
      fst (CreateChannel.handleSubmit now userId citySlug location formData st)
  | SubmitPost now userId citySlug channelSlug locationData selectedChannel
               postType formData =>
      fst (CreatePost.handleSubmit now userId citySlug channelSlug
             locationData selectedChannel postType formData st)
  | SubmitComment s => fst (submit s (st, PostList.emptyUI))
  end.

Definition performAll (l : list Action) (st : Store) : Store :=
  fold_left (fun acc a => perform a acc) l st.

(** Properties of a store that the forms are meant to keep. *)
Definition uniqueCitySlugs (st : Store) : Prop :=
  NoDup (map Location.slug (locations st)).

Definition uniqueChannelSlugs (st : Store) : Prop :=
  NoDup (map (fun c => (Channel.locationId c, Channel.slug c)) (channels st)).

(** A string that [trim] leaves as it is and that is not empty. *)
Definition trimmedText (s : jsstring) : bool :=
  jsstring_eqb (trim s) s && truthy s.

Definition filled (s : option jsstring) : bool :=
  match s with Some text => trimmedText text | None => false end.

Definition unset (s : option jsstring) : bool :=
  match s with None => true | Some _ => false end.

(** The fields of a post fit its type, and each text it holds is trimmed
    and not empty. *)
Definition shaped (p : Post.t) : bool :=
  trimmedText (Post.title p)
  && match Post.type p with
     | Some TextPost =>
         filled (Post.content p) && unset (Post.linkUrl p)
         && unset (Post.linkTitle p) && unset (Post.linkDescription p)
     | Some LinkPost =>
         filled (Post.linkUrl p) && unset (Post.content p)
         && (unset (Post.linkTitle p) || filled (Post.linkTitle p))
         && (unset (Post.linkDescription p) || filled (Post.linkDescription p))
     | _ => false
     end.

(** A new post as the form stores it: active, with all four counters 0. *)
Definition fresh (p : Post.t) : bool :=
  isTrue (Post.isActive p)
  && match Post.upvotes p, Post.downvotes p, Post.score p,
           Post.commentCount p with
     | Some 0%Z, Some 0%Z, Some 0%Z, Some 0%Z => true
     | _, _, _, _ => false
     end.

(** [l'] continues [l]: the rows of [l], unchanged and in place, then
    possibly more. *)
Definition extends (A : Type) (l l' : list A) : Prop :=
  exists more, l' = l ++ more.

(** ** The specification's words, for comparison *)

Module Spec.

(** "strip characters outside [[a-z0-9\s-]]" *)
Definition strip (s : jsstring) : jsstring :=
  filter (fun c => isLower c || isDigit c || isWhiteSpace c || isHyphen c) s.

(** "collapse whitespace runs to [-]", "collapse repeated [-]": within a
    run of the class only its last character is kept, as a hyphen. *)
Fixpoint collapseRuns (p : N -> bool) (s : jsstring) : jsstring :=
  match s with
  | [] => []
  | c :: rest =>
      if p c then
        match rest with
        | d :: _ => if p d then collapseRuns p rest
                    else hyphen :: collapseRuns p rest
        | [] => [hyphen]
        end
      else c :: collapseRuns p rest
  end.

Fixpoint dropHyphens (s : jsstring) : jsstring :=
  match s with
  | c :: rest => if isHyphen c then dropHyphens rest else s
  | [] => []
  end.

(** "trim leading/trailing [-]" *)
Definition trimHyphens (s : jsstring) : jsstring :=
  rev (dropHyphens (rev (dropHyphens s))).

(** The first four steps of the transformation. *)
Definition collapsed (name : jsstring) : jsstring :=
  collapseRuns isHyphen
    (collapseRuns isWhiteSpace (strip (toLowerCase name))).

(** The transformation of section 4.1. *)
Definition resolve (name : jsstring) : jsstring :=
  trimHyphens (collapsed name).

(** "score descending; tie-break = createdAt descending": [a] may stand
    before [b]. *)
Definition feedOrder (scoreA : Z) (createdA : DateTime)
  (scoreB : Z) (createdB : DateTime) : Prop :=
  (scoreB < scoreA \/ (scoreA = scoreB /\ createdB <= createdA))%Z.

(** Score descending with the older entry first among equal scores. *)
Definition threadOrder (scoreA : Z) (createdA : DateTime)
  (scoreB : Z) (createdB : DateTime) : Prop :=
  (scoreB < scoreA \/ (scoreA = scoreB /\ createdA <= createdB))%Z.

End Spec.

(** The two orders, read on the entries of a feed and of a comment list. *)
Definition postOrder (a b : PostList.PostView.t) : Prop :=
  Spec.feedOrder (PostList.PostView.score a) (PostList.PostView.createdAt a)
                 (PostList.PostView.score b) (PostList.PostView.createdAt b).

Definition commentFeedOrder (a b : PostList.CommentView.t) : Prop :=
  Spec.feedOrder
    (PostList.CommentView.score a) (PostList.CommentView.createdAt a)
    (PostList.CommentView.score b) (PostList.CommentView.createdAt b).

Definition commentOrder (a b : PostList.CommentView.t) : Prop :=
  Spec.threadOrder
    (PostList.CommentView.score a) (PostList.CommentView.createdAt a)
    (PostList.CommentView.score b) (PostList.CommentView.createdAt b).

(** ** The Score Aggregator

    The schema declares the [Vote] rows and the three counters of a post and
    of a comment; the operation on them is the one of section 4.2 of the
    specification, modelled below together with its helpers. *)

Module ScoreAggregator.

Inductive Target : Type :=
| OnPost (postId : Id)
| OnComment (commentId : Id).

Inductive CastError : Type := TargetNotFound.

Definition votesOn (t : Target) (v : Vote.t) : bool :=
  match t with
  | OnPost p =>
      match Vote.postId v with Some q => (q =? p)%N | None => false end
  | OnComment c =>
      match Vote.commentId v with Some q => (q =? c)%N | None => false end
  end.

Definition voteOf (userId : Id) (t : Target) (v : Vote.t) : bool :=
  (Vote.userId v =? userId)%N && votesOn t v.

Definition hasType (ty : VoteType) (v : Vote.t) : bool :=
  match Vote.type v with Some ty' => VoteType_eqb ty' ty | None => false end.

(** The votes of one type currently recorded for a target. *)
Definition recorded (ty : VoteType) (t : Target) (st : Store) : Z :=
  Z.of_nat (length (filter (fun v => votesOn t v && hasType ty v) (votes st))).

(** The stored counters [(upvotes, downvotes, score)] of a target. *)
Definition counters (t : Target) (st : Store) : option (Z * Z * Z) :=
  match t with
  | OnPost p =>
      option_map
        (fun r => (orZero (Post.upvotes r), orZero (Post.downvotes r),
                   orZero (Post.score r)))
        (find (fun r => (Post.id r =? p)%N) (posts st))
  | OnComment c =>
      option_map
        (fun r => (orZero (Comment.upvotes r), orZero (Comment.downvotes r),
                   orZero (Comment.score r)))
        (find (fun r => (Comment.id r =? c)%N) (comments st))
  end.

Definition scoreOf (t : Target) (st : Store) : option Z :=
  option_map snd (counters t st).

(** The target exists and is active. *)
Definition targetFound (t : Target) (st : Store) : bool :=
  match t with
  | OnPost p =>
      match find (fun r => (Post.id r =? p)%N) (posts st) with
      | Some r => isTrue (Post.isActive r)
      | None => false
      end
  | OnComment c =>
      match find (fun r => (Comment.id r =? c)%N) (comments st) with
      | Some r => isTrue (Comment.isActive r)
      | None => false
      end
  end.

Definition bumpPost (dUp dDown : Z) (r : Post.t) : Post.t :=
  let up := (orZero (Post.upvotes r) + dUp)%Z in
  let down := (orZero (Post.downvotes r) + dDown)%Z in
  Post.mk (Post.id r) (Post.locationId r) (Post.channelId r) (Post.authorId r)
    (Post.title r) (Post.content r) (Post.type r) (Post.linkUrl r)
    (Post.linkTitle r) (Post.linkDescription r) (Post.isActive r)
    (Post.createdAt r) (Post.updatedAt r)
    (Some up) (Some down) (Some (up - down)%Z) (Post.commentCount r).

Definition bumpComment (dUp dDown : Z) (r : Comment.t) : Comment.t :=
  let up := (orZero (Comment.upvotes r) + dUp)%Z in
  let down := (orZero (Comment.downvotes r) + dDown)%Z in
  Comment.mk (Comment.id r) (Comment.postId r) (Comment.authorId r)
    (Comment.parentCommentId r) (Comment.content r) (Comment.isActive r)
    (Comment.createdAt r) (Comment.updatedAt r)
    (Some up) (Some down) (Some (up - down)%Z).

(** Add [dUp] and [dDown] to the target's counters and recompute its score. *)
Definition bump (t : Target) (dUp dDown : Z) (st : Store) : Store :=
  match t with
  | OnPost p =>
      setPosts st
        (map (fun r => if (Post.id r =? p)%N then bumpPost dUp dDown r else r)
             (posts st))
        (nextId st)
  | OnComment c =>
      setComments st
        (map (fun r => if (Comment.id r =? c)%N then bumpComment dUp dDown r
                       else r)
             (comments st))
        (nextId st)
  end.

Definition delta (ty : VoteType) : Z * Z :=
  match ty with Upvote => (1, 0)%Z | Downvote => (0, 1)%Z end.

Definition retype (ty : VoteType) (v : Vote.t) : Vote.t :=
  Vote.mk (Vote.id v) (Vote.userId v) (Vote.postId v) (Vote.commentId v)
    (Some ty) (Vote.createdAt v).

(** Rewrite the first row that satisfies [p]. *)
Fixpoint updateFirst (A : Type) (p : A -> bool) (f : A -> A) (l : list A)
  : list A :=
  match l with
  | [] => []
  | x :: rest => if p x then f x :: rest else x :: updateFirst p f rest
  end.

Definition newVote (now : DateTime) (userId : Id) (t : Target) (ty : VoteType)
  (st : Store) : Vote.t :=
  match t with
  | OnPost p => Vote.mk (nextId st) userId (Some p) None (Some ty) now
  | OnComment c => Vote.mk (nextId st) userId None (Some c) (Some ty) now
  end.

(** Modelled from the spec: the operation [castVote] of section 4.2, which
    none of the repository's components implements (the schema only declares
    the [Vote] rows and the counters).  No prior vote of the user on the
    target: insert the vote, increment the counter of its type, recompute
    the score.  A prior vote of a different type: decrement the old counter,
    increment the new one, recompute the score and update the row's type,
    in one step.  A prior vote of the same type: nothing changes.  A target
    that does not exist or is inactive: [TargetNotFound]. *)
Definition castVote (now : DateTime) (userId : Id) (t : Target) (ty : VoteType)
  (st : Store) : Store + CastError :=
  if negb (targetFound t st) then inr TargetNotFound
  else
    match find (voteOf userId t) (votes st) with
    | None =>
        let st1 := setVotes st (votes st ++ [newVote now userId t ty st])
                            (N.succ (nextId st)) in
        inl (bump t (fst (delta ty)) (snd (delta ty)) st1)
    | Some prior =>
        if hasType ty prior then inl st
        else
          let old :=
            match Vote.type prior with
            | Some ty' => delta ty'
            | None => (0, 0)%Z
            end in
          let st1 := setVotes st
                       (updateFirst (voteOf userId t) (retype ty) (votes st))
                       (nextId st) in
          inl (bump t (fst (delta ty) - fst old) (snd (delta ty) - snd old) st1)
    end.

(** A sequence of votes by one user on one target; it stops at the first
    failure. *)
Fixpoint castVotes (now : DateTime) (userId : Id) (t : Target)
  (tys : list VoteType) (st : Store) : Store + CastError :=
  match tys with
  | [] => inl st
  | ty :: rest =>
      match castVote now userId t ty st with
      | inl st' => castVotes now userId t rest st'
      | inr e => inr e
      end
  end.

(** 1 for a row that counts, 0 for one that does not. *)
Definition unit_of (b : bool) : Z := if b then 1%Z else 0%Z.

(** The counters of the target agree with the recorded votes. *)
Definition counted (t : Target) (st : Store) : Prop :=
  counters t st =
    Some (recorded Upvote t st, recorded Downvote t st,
          (recorded Upvote t st - recorded Downvote t st)%Z).

Definition rowsOf (userId : Id) (t : Target) (st : Store) : list Vote.t :=
  filter (voteOf userId t) (votes st).

End ScoreAggregator.

(** ** Scenarios

    The stores and requests of the specification's scenarios, built by
    running the handlers from the empty store. *)

Module Scenario.

Definition alice : Id := 100%N.

Definition annArbor : CreateCity.FormData :=
  CreateCity.mkForm (lit "Ann Arbor") (lit "Michigan") (lit "United States") [].

Definition ypsilanti : CreateCity.FormData :=
  CreateCity.mkForm (lit "Ypsilanti") (lit "Michigan") (lit "United States") [].

Definition politics1 : CreateChannel.FormData :=
  CreateChannel.mkForm (lit "Politics!!") [] [] (lit "#3b82f6").

Definition politics2 : CreateChannel.FormData :=
  CreateChannel.mkForm (lit "Politics") [] [] (lit "#3b82f6").

(** Two cities, identifiers 1 and 2. *)
Definition cities : Store :=
  fst (CreateCity.handleSubmit 20%Z ypsilanti
         (fst (CreateCity.handleSubmit 10%Z annArbor emptyStore))).

Definition annArborRef : LocationRef :=
  mkLocationRef 1%N (lit "Ann Arbor") (lit "ann-arbor").

Definition ypsilantiRef : LocationRef :=
  mkLocationRef 2%N (lit "Ypsilanti") (lit "ypsilanti").

(** ... and the channel "Politics!!" (identifier 3) in the first. *)
Definition withPolitics : Store :=
  fst (CreateChannel.handleSubmit 30%Z alice (lit "ann-arbor")
         (Some annArborRef) politics1 cities).

(** Two posts of equal score in the channel, the second one newer. *)
Definition post1 : Post.t :=
  Post.mk 4%N 1%N 3%N alice (lit "P1") (Some (lit "first")) (Some TextPost)
    None None None (Some true) 1000%Z 1000%Z
    (Some 5%Z) (Some 0%Z) (Some 5%Z) (Some 0%Z).

Definition post2 : Post.t :=
  Post.mk 5%N 1%N 3%N alice (lit "P2") (Some (lit "second")) (Some TextPost)
    None None None (Some true) 2000%Z 2000%Z
    (Some 5%Z) (Some 0%Z) (Some 5%Z) (Some 0%Z).

Definition feed : Store := setPosts withPolitics [post1; post2] 6%N.

(** A post written through the form (identifier 4), then two comments on it
    (identifiers 5 and 6), the second one later. *)
Definition welcome : CreatePost.FormData :=
  CreatePost.mkForm (lit "Welcome!") (lit "Hello everyone!") [] [] [].

Definition withPost : Store :=
  fst (CreatePost.handleSubmit 50%Z alice (lit "ann-arbor")
         (Some (lit "politics")) (Some annArborRef) (Some 3%N)
         CreatePost.TextForm welcome withPolitics).

Definition twoComments : list Submission :=
  [ mkSubmission 60%Z 60%Z (Some alice) 4%N (Some (lit "first!"));
    mkSubmission 70%Z 70%Z (Some alice) 4%N (Some (lit " second ")) ].

Definition withComments : Store :=
  fst (submitAll twoComments (withPost, PostList.emptyUI)).

(** The row of the post. *)
Definition welcomePost : Post.t :=
  Post.mk 4%N 1%N 3%N alice (lit "Welcome!") (Some (lit "Hello everyone!"))
    (Some TextPost) None None None (Some true) 50%Z 50%Z
    (Some 0%Z) (Some 0%Z) (Some 0%Z) (Some 0%Z).

(** The rows of the two comments. *)
Definition comment1 : Comment.t :=
  Comment.mk 5%N 4%N alice None (lit "first!") (Some true) 60%Z 60%Z
    (Some 0%Z) (Some 0%Z) (Some 0%Z).

Definition comment2 : Comment.t :=
  Comment.mk 6%N 4%N alice None (lit "second") (Some true) 70%Z 70%Z
    (Some 0%Z) (Some 0%Z) (Some 0%Z).

(** Comment sets with parent links, which no handler creates: two comments
    that name each other as parent, and a thread of two roots and a reply
    to the first. *)
Definition reply (id : Id) (parent : option Id) (score : Z) (at_ : DateTime)
  : Comment.t :=
  Comment.mk id 4%N alice parent (lit "re") (Some true) at_ at_
    (Some score) (Some 0%Z) (Some score).

Definition cyclic : Store :=
  setComments withPost
    [reply 5%N (Some 6%N) 0%Z 60%Z; reply 6%N (Some 5%N) 0%Z 70%Z] 7%N.

Definition threaded : Store :=
  setComments withPost
    [reply 5%N None 0%Z 60%Z; reply 6%N None 5%Z 70%Z;
     reply 7%N (Some 5%N) 10%Z 80%Z] 8%N.

(** User A votes on the post of [withPost]: up, then down.  [tally] reads
    the post's counters and the number of vote rows off the result. *)
Definition upThenDown : list VoteType := [Upvote; Downvote].

Definition tally (r : Store + ScoreAggregator.CastError)
  : option (Z * Z * Z) * nat :=
  match r with
  | inl st =>
      (ScoreAggregator.counters (ScoreAggregator.OnPost 4%N) st,
       length (votes st))
  | inr _ => (None, 0%nat)
  end.

(** A form whose name was left empty. *)
Definition unnamed : CreateCity.FormData :=
  CreateCity.mkForm [] (lit "Michigan") (lit "United States") [].

(** A name made of punctuation only. *)
Definition punctuation : CreateCity.FormData :=
  CreateCity.mkForm (lit "!!!") (lit "Michigan") (lit "United States") [].

Definition punctuationChannel : CreateChannel.FormData :=
  CreateChannel.mkForm (lit "?!") [] [] (lit "#3b82f6").

(** A store whose only city has been deactivated (no form does that; the
    schema allows it). *)
Definition closedCity : Store :=
  setLocations emptyStore
    [Location.mk 1%N (lit "Ann Arbor") (lit "ann-arbor") None
       (Some (lit "Michigan")) (Some (lit "United States")) (Some false)
       10%Z] 2%N.

(** A run of submissions: a city, the same city again, a channel in it, a
    post in the channel and a comment on the post. *)
Definition session : list Action :=
  [ SubmitCity 10%Z annArbor;
    SubmitCity 11%Z annArbor;
    SubmitChannel 30%Z alice (lit "ann-arbor") (Some annArborRef) politics1;
    SubmitChannel 31%Z alice (lit "ann-arbor") (Some annArborRef) politics2;
    SubmitPost 50%Z alice (lit "ann-arbor") (Some (lit "politics"))
      (Some annArborRef) (Some 2%N) CreatePost.TextForm welcome;
    SubmitComment (mkSubmission 60%Z 60%Z (Some alice) 3%N
                     (Some (lit "first!"))) ].

(** A panel with nothing expanded and nothing loaded. *)
Definition closedPanel : PostList.Panel :=
  PostList.mkPanel (fun _ => false) PostList.emptyUI.

(** What the channel page of "politics" shows. *)
Definition politicsPage : LocationRef * ChannelView.ChannelInfo :=
  (annArborRef,
   ChannelView.mkChannel 3%N (lit "Politics!!") (lit "politics") None None
     0%Z 0%Z (Some (lit "#3b82f6"))).

(** Two posts in that channel, one of each type. *)
Definition morePosts : list Action :=
  [ SubmitPost 50%Z alice (lit "ann-arbor") (Some (lit "politics"))
      (Some annArborRef) (Some 3%N) CreatePost.TextForm welcome;
    SubmitPost 51%Z alice (lit "ann-arbor") (Some (lit "politics"))
      (Some annArborRef) (Some 3%N) CreatePost.LinkForm
      (CreatePost.mkForm (lit "Read this") [] (lit " https://example.com ")
         (lit "Example") []) ].

(** The store with the post, and a profile for its author (profiles are
    made outside these forms). *)
Definition withProfile : Store :=
  mkStore [UserProfile.mk alice (lit "alice") None]
    (locations withPost) (channels withPost) (memberships withPost)
    (posts withPost) (comments withPost) (votes withPost) (nextId withPost).

End Scenario.

(** * Properties *)

(** ** The string primitives at work *)

Example toLowerCase_ascii : toLowerCase (lit "Ann ARBOR 48104") = lit "ann arbor 48104".
Proof. reflexivity. Qed.

Example replace_class : replace (Class notSlugChar) [] (lit "st. john's") = lit "st johns".
Proof. reflexivity. Qed.

Example replace_plus :
  replace (ClassPlus isWhiteSpace) [hyphen] (lit "a  b c   ") = lit "a-b-c-".
Proof. reflexivity. Qed.

Example trim_both_ends : trim (lit "  a b  ") = lit "a b".
Proof. reflexivity. Qed.

Example trim_no_break_space : trim [160; 97; 8232]%N = lit "a".
Proof. reflexivity. Qed.

Example sort_is_stable :
  JSArray.sort (fun a b => (fst a - fst b)%Z)
    [(2, 1); (1, 2); (2, 3); (1, 4)]%Z
  = [(1, 2); (1, 4); (2, 1); (2, 3)]%Z.
Proof. reflexivity. Qed.

(** ** Slugs *)

Example generateSlug_ann_arbor :
  generateSlug (lit "Ann Arbor") = lit "ann-arbor".
Proof. reflexivity. Qed.

Example generateSlug_politics :
  generateSlug (lit "Politics!!") = lit "politics".
Proof. reflexivity. Qed.

Example generateSlug_padded :
  generateSlug (lit "  Ann   Arbor ") = lit "-ann-arbor-".
Proof. reflexivity. Qed.

Example generateSlug_punctuation :
  generateSlug (lit "!!!") = [].
Proof. reflexivity. Qed.

Example generateSlug_kelvin :
  generateSlug [8490; 50]%N = lit "k2".
Proof. reflexivity. Qed.

Lemma replace_class_strip (s : jsstring) :
  replace (Class notSlugChar) [] s = Spec.strip s.
Proof.
  unfold replace.
  induction s as [|c s IH]; simpl; [reflexivity|].
  unfold notSlugChar at 1.
  destruct (isLower c || isDigit c || isWhiteSpace c || isHyphen c); simpl;
    now rewrite IH.
Qed.

Lemma replace_plus_collapse (p : N -> bool) (s : jsstring) :
  replaceFrom (ClassPlus p) [hyphen] false s = Spec.collapseRuns p s
  /\ forall c, p c = true ->
       Spec.collapseRuns p (c :: s)
       = hyphen :: replaceFrom (ClassPlus p) [hyphen] true s.
Proof.
  induction s as [|d s [IHa IHb]].
  - split; [reflexivity|]. intros c Hc. simpl. now rewrite Hc.
  - split.
    + destruct (p d) eqn:Hd.
      * rewrite (IHb d Hd). simpl. now rewrite Hd.
      * simpl. rewrite Hd. now rewrite IHa.
    + intros c Hc.
      change (Spec.collapseRuns p (c :: d :: s))
        with (if p c then
                if p d then Spec.collapseRuns p (d :: s)
                else hyphen :: Spec.collapseRuns p (d :: s)
              else c :: Spec.collapseRuns p (d :: s)).
      rewrite Hc. destruct (p d) eqn:Hd.
      * rewrite (IHb d Hd). simpl. now rewrite Hd.
      * simpl. rewrite Hd. now rewrite IHa.
Qed.

Lemma replace_plus_spec (p : N -> bool) (s : jsstring) :
  replace (ClassPlus p) [hyphen] s = Spec.collapseRuns p s.
Proof. apply replace_plus_collapse. Qed.

(** What a collapse leaves: hyphens, and characters outside the class. *)
Lemma collapseRuns_Forall (p : N -> bool) (Q : N -> Prop) (s : jsstring) :
  Q hyphen ->
  Forall (fun c => p c = false -> Q c) s ->
  Forall Q (Spec.collapseRuns p s).
Proof.
  intros Hh. induction s as [|c s IH]; intros HF; [constructor|].
  inversion HF as [|? ? Hc Hs]; subst. specialize (IH Hs).
  simpl. destruct (p c) eqn:Hpc.
  - destruct s as [|d s']; [repeat constructor; exact Hh|].
    destruct (p d); [exact IH|]. constructor; [exact Hh|exact IH].
  - constructor; [now apply Hc|exact IH].
Qed.

Lemma strip_Forall (s : jsstring) :
  Forall (fun c => isWhiteSpace c = false -> slugChar c = true) (Spec.strip s).
Proof.
  unfold Spec.strip. apply Forall_forall. intros c Hin.
  apply filter_In in Hin. destruct Hin as [_ Hc]. intros Hw.
  unfold slugChar. rewrite Hw in Hc.
  destruct (isLower c), (isDigit c), (isHyphen c); simpl in *; congruence.
Qed.

Lemma slugChar_hyphen : slugChar hyphen = true.
Proof. reflexivity. Qed.

Lemma slugChar_plain (c : N) :
  slugChar c = true -> isWhiteSpace c = false /\ isUpper c = false.
Proof.
  unfold slugChar, isLower, isDigit, isHyphen, isWhiteSpace, isUpper, hyphen.
  intros H.
  repeat (apply orb_true_iff in H; destruct H as [H|H]);
    repeat (apply andb_true_iff in H; destruct H as [? H]);
    repeat match goal with
           | E : (_ <=? _)%N = true |- _ => apply N.leb_le in E
           | E : (_ =? _)%N = true |- _ => apply N.eqb_eq in E
           end;
    split;
    repeat (apply orb_false_iff; split);
    try (apply N.eqb_neq; lia);
    try (apply andb_false_iff;
         first [ left; apply N.leb_gt; lia | right; apply N.leb_gt; lia ]).
Qed.

Lemma collapsed_slugChars (name : jsstring) :
  Forall (fun c => slugChar c = true) (Spec.collapsed name).
Proof.
  unfold Spec.collapsed.
  apply collapseRuns_Forall; [exact slugChar_hyphen|].
  apply Forall_impl with (P := fun c => slugChar c = true); [auto|].
  apply collapseRuns_Forall; [exact slugChar_hyphen|].
  apply strip_Forall.
Qed.

Lemma collapseRuns_skip (p : N -> bool) (c : N) (s : jsstring) :
  p c = false -> Spec.collapseRuns p (c :: s) = c :: Spec.collapseRuns p s.
Proof. intros H. simpl. now rewrite H. Qed.

Lemma doubled_cons (c d : N) (r : jsstring) :
  doubled (c :: d :: r) = (isHyphen c && isHyphen d) || doubled (d :: r).
Proof. reflexivity. Qed.

Lemma collapseRuns_not_doubled (s : jsstring) :
  doubled (Spec.collapseRuns isHyphen s) = false.
Proof.
  induction s as [|c s IH]; [reflexivity|].
  destruct (isHyphen c) eqn:Hc.
  - destruct s as [|d s']; [simpl; now rewrite Hc|].
    change (Spec.collapseRuns isHyphen (c :: d :: s'))
      with (if isHyphen c then
              if isHyphen d then Spec.collapseRuns isHyphen (d :: s')
              else hyphen :: Spec.collapseRuns isHyphen (d :: s')
            else c :: Spec.collapseRuns isHyphen (d :: s')).
    rewrite Hc. destruct (isHyphen d) eqn:Hd; [exact IH|].
    rewrite (collapseRuns_skip isHyphen d s' Hd) in *.
    rewrite doubled_cons, Hd, andb_false_r. exact IH.
  - rewrite (collapseRuns_skip isHyphen c s Hc).
    destruct (Spec.collapseRuns isHyphen s) as [|e r] eqn:E; [reflexivity|].
    rewrite doubled_cons, Hc. exact IH.
Qed.

Lemma doubled_found (l1 l2 : jsstring) :
  doubled (l1 ++ hyphen :: hyphen :: l2) = true.
Proof.
  induction l1 as [|c l1 IH]; [reflexivity|].
  simpl. destruct (l1 ++ hyphen :: hyphen :: l2) eqn:E.
  - destruct l1; discriminate.
  - rewrite IH. apply orb_true_r.
Qed.

(** [trim] leaves a string without white space as it is. *)
Lemma trimStart_plain (s : jsstring) :
  Forall (fun c => isWhiteSpace c = false) s -> trimStart s = s.
Proof.
  intros H. destruct H as [|c s Hc Hs]; [reflexivity|].
  simpl. now rewrite Hc.
Qed.

Lemma trim_plain (s : jsstring) :
  Forall (fun c => isWhiteSpace c = false) s -> trim s = s.
Proof.
  intros H. unfold trim, trimEnd.
  rewrite (trimStart_plain H).
  rewrite trimStart_plain; [apply rev_involutive|].
  apply Forall_rev. exact H.
Qed.

Lemma collapsed_no_space (name : jsstring) :
  Forall (fun c => isWhiteSpace c = false) (Spec.collapsed name).
Proof.
  eapply Forall_impl; [|apply collapsed_slugChars].
  intros c Hc. now apply slugChar_plain.
Qed.

Lemma generateSlug_steps (name : jsstring) :
  generateSlug name = trim (Spec.collapsed name).
Proof.
  unfold generateSlug, Spec.collapsed.
  now rewrite replace_class_strip, !replace_plus_spec.
Qed.

Lemma generateSlug_collapsed (name : jsstring) :
  generateSlug name = Spec.collapsed name.
Proof.
  rewrite generateSlug_steps. apply trim_plain, collapsed_no_space.
Qed.

(** C9: for every input string the slug made by [generateSlug] consists of
    lower-case ASCII letters, digits and hyphens only; it holds no white
    space, no upper-case letter and no two hyphens in a row; it may begin
    or end with a hyphen. *)
Theorem generateSlug_alphabet :
  (forall name : jsstring,
      Forall (fun c => isLower c = true \/ isDigit c = true \/ c = hyphen)
             (generateSlug name)
      /\ Forall (fun c => isWhiteSpace c = false /\ isUpper c = false)
                (generateSlug name)
      /\ forall l1 l2 : jsstring,
           generateSlug name <> l1 ++ hyphen :: hyphen :: l2)
  /\ (exists name rest, generateSlug name = hyphen :: rest)
  /\ (exists name rest, generateSlug name = rest ++ [hyphen]).
Proof.
  split; [|split].
  - intros name. rewrite generateSlug_collapsed.
    pose proof (collapsed_slugChars name) as Hs.
    split; [|split].
    + eapply Forall_impl; [|exact Hs]. intros c Hc.
      unfold slugChar, isHyphen in Hc.
      apply orb_true_iff in Hc. destruct Hc as [Hc|Hc].
      * apply orb_true_iff in Hc. tauto.
      * right; right. now apply N.eqb_eq.
    + eapply Forall_impl; [|exact Hs]. intros c. apply slugChar_plain.
    + intros l1 l2 E.
      pose proof (doubled_found l1 l2) as Hd. rewrite <- E in Hd.
      unfold Spec.collapsed in Hd.
      rewrite collapseRuns_not_doubled in Hd. discriminate.
  - exists (lit " a "), (lit "a-"). reflexivity.
  - exists (lit " a "), (lit "-a"). reflexivity.
Qed.

(** C3, as stated, fails: a hyphen at either end of the cleaned name stays
    in the slug, where the stated transformation removes it. *)
Lemma generateSlug_keeps_outer_hyphens :
  generateSlug (lit "-Ann Arbor-") = lit "-ann-arbor-"
  /\ Spec.resolve (lit "-Ann Arbor-") = lit "ann-arbor"
  /\ generateSlug (lit "-Ann Arbor-") <> Spec.resolve (lit "-Ann Arbor-").
Proof. repeat split. discriminate. Qed.

(** C3, amended: for every name, [generateSlug] lower-cases the name, strips
    every character outside [[a-z0-9\s-]], collapses each run of white space
    to one hyphen and each run of hyphens to one hyphen, and trims white
    space from both ends of the result, of which none is left at that
    point; it does not remove a hyphen at either end, so the slug of the
    specification is what remains once those are trimmed from it. *)
Theorem generateSlug_transformation (name : jsstring) :
  generateSlug name = trim (Spec.collapsed name)
  /\ trim (Spec.collapsed name) = Spec.collapsed name
  /\ Spec.resolve name = Spec.trimHyphens (generateSlug name).
Proof.
  split; [apply generateSlug_steps|]. split.
  - apply trim_plain, collapsed_no_space.
  - unfold Spec.resolve. now rewrite generateSlug_collapsed.
Qed.

(** ** Creating cities and channels *)

Lemma jsstring_eqb_eq (a b : jsstring) : jsstring_eqb a b = true <-> a = b.
Proof.
  unfold jsstring_eqb. destruct (list_eq_dec N.eq_dec a b); split;
    congruence.
Qed.

Lemma filter_found (A : Type) (f : A -> bool) (x : A) (l : list A) :
  In x l -> f x = true -> (0 <? length (filter f l))%nat = true.
Proof.
  intros Hin Hf.
  assert (In x (filter f l)) as H by (apply filter_In; auto).
  destruct (filter f l); [contradiction|reflexivity].
Qed.

Lemma filter_none (A : Type) (f : A -> bool) (l : list A) :
  (forall x, In x l -> f x = false) -> filter f l = [].
Proof.
  induction l as [|y l IH]; intros H; [reflexivity|].
  simpl. rewrite (H y (or_introl eq_refl)). apply IH.
  intros x Hx. apply H. now right.
Qed.

(** C4, as stated, fails: the slug of "Ann Arbor" is taken, but a form with
    that name and a blank state ends in the required-state error, not in
    [DuplicateSlug]: the required fields are checked before the slug. *)
Lemma duplicate_slug_after_required_fields :
  (exists l, In l (locations Scenario.withPolitics)
             /\ Location.slug l = generateSlug (lit "Ann Arbor"))
  /\ CreateCity.handleSubmit 40%Z
       (CreateCity.mkForm (lit "Ann Arbor") (lit " ") (lit "United States") [])
       Scenario.withPolitics
     = (Scenario.withPolitics, Rejected StateRequired)
  /\ snd (CreateCity.handleSubmit 40%Z
            (CreateCity.mkForm (lit "Ann Arbor") (lit " ")
               (lit "United States") [])
            Scenario.withPolitics)
     <> Rejected DuplicateSlug.
Proof.
  split; [|split]; [|reflexivity|discriminate].
  eexists. split; [left; reflexivity|reflexivity].
Qed.

(** C4, amended: a creation request whose generated slug is already taken
    in its scope (among all cities for a city, among the channels of the
    same city for a channel) creates nothing; and when it passes the
    required-field checks that come before the slug (a name that is not
    blank, for a city also a state that is not blank, for a channel a
    loaded city) it ends in the [DuplicateSlug] error.  A channel whose
    slug is taken only under other cities is created, with that slug. *)
Theorem duplicate_slug_rejected :
  (forall (now : DateTime) (formData : CreateCity.FormData) (st : Store),
      (exists l, In l (locations st)
                 /\ Location.slug l = generateSlug (CreateCity.name formData)) ->
      fst (CreateCity.handleSubmit now formData st) = st
      /\ (truthy (trim (CreateCity.name formData)) = true ->
          truthy (trim (CreateCity.state formData)) = true ->
          snd (CreateCity.handleSubmit now formData st)
          = Rejected DuplicateSlug))
  /\ (forall (now : DateTime) (userId : Id) (citySlug : jsstring)
             (loc : LocationRef) (formData : CreateChannel.FormData)
             (st : Store),
      (exists c, In c (channels st)
                 /\ Channel.slug c = generateSlug (CreateChannel.name formData)
                 /\ Channel.locationId c = ref_id loc) ->
      fst (CreateChannel.handleSubmit now userId citySlug (Some loc) formData st)
      = st
      /\ (truthy (trim (CreateChannel.name formData)) = true ->
          snd (CreateChannel.handleSubmit now userId citySlug (Some loc)
                 formData st)
          = Rejected DuplicateSlug))
  /\ (forall (now : DateTime) (userId : Id) (citySlug : jsstring)
             (loc : LocationRef) (formData : CreateChannel.FormData)
             (st : Store),
      truthy (trim (CreateChannel.name formData)) = true ->
      (forall c, In c (channels st) ->
                 Channel.slug c = generateSlug (CreateChannel.name formData) ->
                 Channel.locationId c <> ref_id loc) ->
      exists row,
        Channel.slug row = generateSlug (CreateChannel.name formData)
        /\ Channel.locationId row = ref_id loc
        /\ CreateChannel.handleSubmit now userId citySlug (Some loc) formData st
           = (setChannels st (channels st ++ [row]) (N.succ (nextId st)),
              Navigated (lit "/city/" ++ citySlug ++ lit "/channel/"
                         ++ generateSlug (CreateChannel.name formData)))).
Proof.
  split; [|split].
  - intros now formData st [l [Hin Hslug]].
    assert ((0 <? length (filter
               (fun l => jsstring_eqb (Location.slug l)
                           (generateSlug (CreateCity.name formData)))
               (locations st)))%nat = true) as Hdup.
    { apply filter_found with (x := l); [exact Hin|].
      now apply jsstring_eqb_eq. }
    unfold CreateCity.handleSubmit.
    destruct (truthy (trim (CreateCity.name formData)));
      destruct (truthy (trim (CreateCity.state formData)));
      cbv zeta; rewrite ?Hdup; simpl; split; try reflexivity;
      intros; congruence.
  - intros now userId citySlug loc formData st [c [Hin [Hslug Hloc]]].
    assert ((0 <? length (filter
               (fun c => jsstring_eqb (Channel.slug c)
                           (generateSlug (CreateChannel.name formData))
                         && (Channel.locationId c =? ref_id loc)%N)
               (channels st)))%nat = true) as Hdup.
    { apply filter_found with (x := c); [exact Hin|].
      apply andb_true_iff. split; [now apply jsstring_eqb_eq|].
      now apply N.eqb_eq. }
    unfold CreateChannel.handleSubmit.
    destruct (truthy (trim (CreateChannel.name formData)));
      cbv zeta; rewrite ?Hdup; simpl; split; try reflexivity;
      intros; congruence.
  - intros now userId citySlug loc formData st Hname Hfree.
    unfold CreateChannel.handleSubmit. rewrite Hname. cbv zeta.
    rewrite filter_none.
    + simpl. eexists. split; [|split; [|reflexivity]]; reflexivity.
    + intros c Hin.
      destruct (jsstring_eqb (Channel.slug c)
                  (generateSlug (CreateChannel.name formData))) eqn:E;
        [|reflexivity].
      apply jsstring_eqb_eq in E. simpl. apply N.eqb_neq. now apply Hfree.
Qed.

(** The scenario of the specification: "Ann Arbor" exists with the channel
    "Politics!!"; a second "Ann Arbor" and a second "Politics" in the same
    city are refused, "Politics" in another city is created. *)
Lemma duplicate_slug_rejected_witness :
  CreateCity.handleSubmit 40%Z Scenario.annArbor Scenario.withPolitics
  = (Scenario.withPolitics, Rejected DuplicateSlug)
  /\ CreateChannel.handleSubmit 40%Z Scenario.alice (lit "ann-arbor")
       (Some Scenario.annArborRef) Scenario.politics2 Scenario.withPolitics
     = (Scenario.withPolitics, Rejected DuplicateSlug)
  /\ exists row,
       Channel.slug row = lit "politics"
       /\ fst (CreateChannel.handleSubmit 40%Z Scenario.alice (lit "ypsilanti")
                 (Some Scenario.ypsilantiRef) Scenario.politics2
                 Scenario.withPolitics)
          = setChannels Scenario.withPolitics
              (channels Scenario.withPolitics ++ [row]) 5%N.
Proof.
  destruct duplicate_slug_rejected as [Hcity [Hsame Hother]].
  split; [|split].
  - destruct (Hcity 40%Z Scenario.annArbor Scenario.withPolitics) as [H1 H2].
    + eexists. split; [left; reflexivity|reflexivity].
    + rewrite <- H1 at 2. rewrite <- H2; [|reflexivity|reflexivity].
      apply surjective_pairing.
  - destruct (Hsame 40%Z Scenario.alice (lit "ann-arbor") Scenario.annArborRef
                Scenario.politics2 Scenario.withPolitics) as [H1 H2].
    + eexists. split; [left; reflexivity|split; reflexivity].
    + rewrite <- H1 at 2. rewrite <- H2; [|reflexivity].
      apply surjective_pairing.
  - destruct (Hother 40%Z Scenario.alice (lit "ypsilanti")
                Scenario.ypsilantiRef Scenario.politics2
                Scenario.withPolitics) as [row [Hslug [_ Hrun]]].
    + reflexivity.
    + intros c [Hc|[]] _. subst c. discriminate.
    + exists row. split; [exact Hslug|]. now rewrite Hrun.
Defined.

(** A form with a blank required field is refused before any slug is
    generated, whatever the store holds. *)
Example required_fields_first :
  CreateCity.handleSubmit 40%Z
    (CreateCity.mkForm (lit "Ann Arbor") (lit " ") (lit "United States") [])
    Scenario.withPolitics
  = (Scenario.withPolitics, Rejected StateRequired).
Proof. reflexivity. Qed.

(** C6, as stated, fails: a name made of punctuation only has the empty
    slug, and the handlers create the city, and the channel, under that
    slug instead of refusing the name. *)
Lemma empty_slug_created :
  generateSlug (CreateCity.name Scenario.punctuation) = []
  /\ map Location.slug
       (locations (fst (CreateCity.handleSubmit 40%Z Scenario.punctuation
                          emptyStore))) = [[]]
  /\ snd (CreateCity.handleSubmit 40%Z Scenario.punctuation emptyStore)
     = Navigated (lit "/city/")
  /\ map Channel.slug
       (channels (fst (CreateChannel.handleSubmit 40%Z Scenario.alice
                         (lit "ann-arbor") (Some Scenario.annArborRef)
                         Scenario.punctuationChannel Scenario.cities))) = [[]].
Proof. repeat split. Qed.

(** C6, amended: of the creation requests whose name produces an empty slug,
    the one with a blank name fails with the required-name error and creates
    nothing; one with a name that is not blank (made of punctuation, say) is
    not refused for its slug, there being no [InvalidName] error: when the
    other required fields are filled in and no entity of the scope has the
    empty slug yet, the entity is created under the empty slug. *)
Theorem empty_slug_requests :
  (forall (now : DateTime) (formData : CreateCity.FormData) (st : Store),
      generateSlug (CreateCity.name formData) = [] ->
      (truthy (trim (CreateCity.name formData)) = false ->
       CreateCity.handleSubmit now formData st = (st, Rejected NameRequired))
      /\ (truthy (trim (CreateCity.name formData)) = true ->
          truthy (trim (CreateCity.state formData)) = true ->
          (forall l, In l (locations st) -> Location.slug l <> []) ->
          exists row,
            Location.slug row = []
            /\ CreateCity.handleSubmit now formData st
               = (setLocations st (locations st ++ [row]) (N.succ (nextId st)),
                  Navigated (lit "/city/"))))
  /\ (forall (now : DateTime) (userId : Id) (citySlug : jsstring)
             (loc : LocationRef) (formData : CreateChannel.FormData)
             (st : Store),
      generateSlug (CreateChannel.name formData) = [] ->
      (truthy (trim (CreateChannel.name formData)) = false ->
       CreateChannel.handleSubmit now userId citySlug (Some loc) formData st
       = (st, Rejected NameRequired))
      /\ (truthy (trim (CreateChannel.name formData)) = true ->
          (forall c, In c (channels st) -> Channel.locationId c = ref_id loc ->
                     Channel.slug c <> []) ->
          exists row,
            Channel.slug row = []
            /\ Channel.locationId row = ref_id loc
            /\ CreateChannel.handleSubmit now userId citySlug (Some loc)
                 formData st
               = (setChannels st (channels st ++ [row]) (N.succ (nextId st)),
                  Navigated (lit "/city/" ++ citySlug ++ lit "/channel/")))).
Proof.
  split.
  - intros now formData st Hslug. split.
    + intros Hname. unfold CreateCity.handleSubmit. now rewrite Hname.
    + intros Hname Hstate Hfree.
      unfold CreateCity.handleSubmit. rewrite Hname, Hstate, Hslug. cbv zeta.
      rewrite filter_none.
      * simpl. eexists. refine (conj _ eq_refl). reflexivity.
      * intros l Hin.
        destruct (jsstring_eqb (Location.slug l) []) eqn:E; [|reflexivity].
        apply jsstring_eqb_eq in E. now apply Hfree in E.
  - intros now userId citySlug loc formData st Hslug. split.
    + intros Hname. unfold CreateChannel.handleSubmit. now rewrite Hname.
    + intros Hname Hfree.
      unfold CreateChannel.handleSubmit. rewrite Hname, Hslug. cbv zeta.
      rewrite filter_none.
      * simpl. eexists. refine (conj _ (conj _ eq_refl)); reflexivity.
      * intros c Hin.
        destruct (jsstring_eqb (Channel.slug c) []) eqn:E; [|reflexivity].
        apply jsstring_eqb_eq in E. simpl. apply N.eqb_neq.
        intros Hloc. now apply (Hfree c Hin Hloc).
Qed.

Lemma empty_slug_requests_witness :
  CreateCity.handleSubmit 40%Z Scenario.unnamed Scenario.cities
  = (Scenario.cities, Rejected NameRequired)
  /\ exists row,
       Location.slug row = []
       /\ CreateCity.handleSubmit 40%Z Scenario.punctuation Scenario.cities
          = (setLocations Scenario.cities
               (locations Scenario.cities ++ [row]) 4%N,
             Navigated (lit "/city/")).
Proof.
  destruct empty_slug_requests as [Hcity _].
  split.
  - apply (Hcity 40%Z Scenario.unnamed Scenario.cities); reflexivity.
  - apply (Hcity 40%Z Scenario.punctuation Scenario.cities);
      try reflexivity.
    intros l [<-|[<-|[]]]; discriminate.
Defined.

(** ** Sorting *)

Section Sorting.

Variable A : Type.
Variable cmp : A -> A -> Z.
Variable R : A -> A -> Prop.

Hypothesis cmp_le : forall a b, (cmp a b <= 0)%Z -> R a b.
Hypothesis cmp_gt : forall a b, (0 < cmp a b)%Z -> R b a.
Hypothesis R_trans : forall a b c, R a b -> R b c -> R a c.

Lemma insert_perm (x : A) (l : list A) :
  Permutation (JSArray.insert cmp x l) (x :: l).
Proof.
  induction l as [|y ys IH]; simpl; [reflexivity|].
  destruct (cmp x y <=? 0)%Z; [reflexivity|].
  rewrite IH. apply perm_swap.
Qed.

Lemma sort_perm (l : list A) : Permutation (JSArray.sort cmp l) l.
Proof.
  induction l as [|x l IH]; simpl; [constructor|].
  rewrite insert_perm. now constructor.
Qed.

Lemma insert_sorted (x : A) (l : list A) :
  StronglySorted R l -> StronglySorted R (JSArray.insert cmp x l).
Proof.
  induction 1 as [|y ys Hs IH Hy]; simpl.
  - repeat constructor.
  - destruct (cmp x y <=? 0)%Z eqn:E.
    + apply Z.leb_le in E. constructor; [now constructor|].
      constructor; [now apply cmp_le|].
      eapply Forall_impl; [|exact Hy]. intros z Hz.
      eapply R_trans; [apply cmp_le; exact E|exact Hz].
    + apply Z.leb_gt in E. constructor; [exact IH|].
      apply (Permutation_Forall (Permutation_sym (insert_perm x ys))).
      constructor; [now apply cmp_gt|exact Hy].
Qed.

Lemma sort_sorted (l : list A) : StronglySorted R (JSArray.sort cmp l).
Proof.
  induction l as [|x l IH]; simpl; [constructor|].
  now apply insert_sorted.
Qed.

Lemma sorted_before (l1 : list A) (a b : A) (l2 l3 : list A) :
  StronglySorted R (l1 ++ a :: l2 ++ b :: l3) -> R a b.
Proof.
  induction l1 as [|x l1 IH]; simpl; intros H.
  - apply StronglySorted_inv in H. destruct H as [_ H].
    rewrite Forall_forall in H. apply H.
    apply in_or_app. right. now left.
  - apply StronglySorted_inv in H. now apply IH.
Qed.

End Sorting.

Lemma comparePosts_le (a b : PostList.PostView.t) :
  (PostList.comparePosts a b <= 0)%Z -> postOrder a b.
Proof.
  unfold PostList.comparePosts, postOrder, Spec.feedOrder.
  destruct (Z.eqb_spec (PostList.PostView.score a) (PostList.PostView.score b));
    simpl; lia.
Qed.

Lemma comparePosts_gt (a b : PostList.PostView.t) :
  (0 < PostList.comparePosts a b)%Z -> postOrder b a.
Proof.
  unfold PostList.comparePosts, postOrder, Spec.feedOrder.
  destruct (Z.eqb_spec (PostList.PostView.score a) (PostList.PostView.score b));
    simpl; lia.
Qed.

Lemma feedOrder_trans (s1 t1 s2 t2 s3 t3 : Z) :
  Spec.feedOrder s1 t1 s2 t2 -> Spec.feedOrder s2 t2 s3 t3 ->
  Spec.feedOrder s1 t1 s3 t3.
Proof. unfold Spec.feedOrder. lia. Qed.

Lemma compareComments_le (a b : PostList.CommentView.t) :
  (PostList.compareComments a b <= 0)%Z -> commentOrder a b.
Proof.
  unfold PostList.compareComments, commentOrder, Spec.threadOrder.
  destruct (Z.eqb_spec (PostList.CommentView.score a)
                       (PostList.CommentView.score b)); simpl; lia.
Qed.

Lemma compareComments_gt (a b : PostList.CommentView.t) :
  (0 < PostList.compareComments a b)%Z -> commentOrder b a.
Proof.
  unfold PostList.compareComments, commentOrder, Spec.threadOrder.
  destruct (Z.eqb_spec (PostList.CommentView.score a)
                       (PostList.CommentView.score b)); simpl; lia.
Qed.

Lemma threadOrder_trans (s1 t1 s2 t2 s3 t3 : Z) :
  Spec.threadOrder s1 t1 s2 t2 -> Spec.threadOrder s2 t2 s3 t3 ->
  Spec.threadOrder s1 t1 s3 t3.
Proof. unfold Spec.threadOrder. lia. Qed.

Lemma postOrder_sorted (l : list PostList.PostView.t) :
  StronglySorted postOrder (JSArray.sort PostList.comparePosts l).
Proof.
  apply sort_sorted.
  - exact comparePosts_le.
  - exact comparePosts_gt.
  - intros a b c. apply feedOrder_trans.
Qed.

Lemma commentOrder_sorted (l : list PostList.CommentView.t) :
  StronglySorted commentOrder (JSArray.sort PostList.compareComments l).
Proof.
  apply sort_sorted.
  - exact compareComments_le.
  - exact compareComments_gt.
  - intros a b c. apply threadOrder_trans.
Qed.

(** ** The feed *)

(** C2: the list [fetchPosts] returns holds the summaries of the selected
    posts, ordered by score descending and, among equal scores, by
    [createdAt] descending: of two posts of equal score the one listed
    first is the newer one (or of the same instant). *)
Theorem fetchPosts_ordered (locationId channelId : option Id) (st : Store) :
  StronglySorted postOrder (PostList.fetchPosts locationId channelId st)
  /\ Permutation (PostList.fetchPosts locationId channelId st)
       (map (PostList.postSummary channelId st)
            (filter (PostList.postFilter locationId channelId) (posts st)))
  /\ forall l1 a l2 b l3,
       PostList.fetchPosts locationId channelId st = l1 ++ a :: l2 ++ b :: l3 ->
       (PostList.PostView.score b <= PostList.PostView.score a)%Z
       /\ (PostList.PostView.score a = PostList.PostView.score b ->
           (PostList.PostView.createdAt b <= PostList.PostView.createdAt a)%Z).
Proof.
  unfold PostList.fetchPosts. split; [apply postOrder_sorted|].
  split; [apply sort_perm|].
  intros l1 a l2 b l3 E.
  pose proof (postOrder_sorted
                (map (PostList.postSummary channelId st)
                     (filter (PostList.postFilter locationId channelId)
                             (posts st)))) as Hs.
  rewrite E in Hs. apply sorted_before in Hs.
  unfold postOrder, Spec.feedOrder in Hs. lia.
Qed.

(** The scenario of the specification: P1 and P2 have the same score and P2
    is newer; the channel's feed lists P2 before P1. *)
Lemma fetchPosts_ordered_witness :
  map PostList.PostView.title
      (PostList.fetchPosts None (Some 3%N) Scenario.feed)
  = [lit "P2"; lit "P1"]
  /\ (Post.createdAt Scenario.post1 <= Post.createdAt Scenario.post2)%Z.
Proof.
  split; [reflexivity|].
  destruct (fetchPosts_ordered None (Some 3%N) Scenario.feed) as [_ [_ H]].
  apply (H [] (PostList.postSummary (Some 3%N) Scenario.feed Scenario.post2)
           [] (PostList.postSummary (Some 3%N) Scenario.feed Scenario.post1)
           []); reflexivity.
Defined.

(** C5, as stated, fails: of two comments of equal score the older one is
    listed first, which the order of the post feed forbids. *)
Lemma comments_oldest_first :
  map (fun c => (PostList.CommentView.score c, PostList.CommentView.createdAt c))
      (PostList.commentData 4%N Scenario.withComments)
  = [(0, 60); (0, 70)]%Z
  /\ ~ StronglySorted commentFeedOrder
         (PostList.commentData 4%N Scenario.withComments).
Proof.
  split; [reflexivity|].
  intros H.
  assert (exists a b,
             PostList.commentData 4%N Scenario.withComments = [a; b]
             /\ PostList.CommentView.score a = 0%Z
             /\ PostList.CommentView.score b = 0%Z
             /\ PostList.CommentView.createdAt a = 60%Z
             /\ PostList.CommentView.createdAt b = 70%Z)
    as (a & b & E & Ha & Hb & Ta & Tb)
    by (do 2 eexists; split; [reflexivity|repeat split]).
  rewrite E in H. apply (@sorted_before _ _ [] a b [] []) in H.
  unfold commentFeedOrder, Spec.feedOrder in H. lia.
Qed.

(** C5, amended: the list [fetchComments] computes holds the summaries of
    the post's active comments, ordered by score descending and, among equal
    scores, by [createdAt] ascending (oldest first). *)
Theorem fetchComments_ordered (postId : Id) (st : Store) :
  StronglySorted commentOrder (PostList.commentData postId st)
  /\ Permutation (PostList.commentData postId st)
       (map (PostList.commentSummary st)
            (filter (PostList.commentFilter postId) (comments st)))
  /\ forall l1 a l2 b l3,
       PostList.commentData postId st = l1 ++ a :: l2 ++ b :: l3 ->
       (PostList.CommentView.score b <= PostList.CommentView.score a)%Z
       /\ (PostList.CommentView.score a = PostList.CommentView.score b ->
           (PostList.CommentView.createdAt a
            <= PostList.CommentView.createdAt b)%Z).
Proof.
  unfold PostList.commentData. split; [apply commentOrder_sorted|].
  split; [apply sort_perm|].
  intros l1 a l2 b l3 E.
  pose proof (commentOrder_sorted
                (map (PostList.commentSummary st)
                     (filter (PostList.commentFilter postId) (comments st))))
    as Hs.
  rewrite E in Hs. apply sorted_before in Hs.
  unfold commentOrder, Spec.threadOrder in Hs. lia.
Qed.

(** The two comments of the scenario have the same score; the older one
    comes first. *)
Lemma fetchComments_ordered_witness :
  map PostList.CommentView.content
      (PostList.commentData 4%N Scenario.withComments)
  = [lit "first!"; lit "second"]
  /\ (PostList.CommentView.createdAt
        (PostList.commentSummary Scenario.withComments Scenario.comment1)
      <= PostList.CommentView.createdAt
           (PostList.commentSummary Scenario.withComments Scenario.comment2))%Z.
Proof.
  split; [reflexivity|].
  destruct (fetchComments_ordered 4%N Scenario.withComments) as [_ [_ H]].
  apply (H [] _ [] _ []); reflexivity.
Defined.

(** ** Comments and parent links *)

Example withComments_rows :
  comments Scenario.withComments = [Scenario.comment1; Scenario.comment2].
Proof. reflexivity. Qed.

Lemma noParentLinks_parentOf (cs : list Comment.t) (c : Id) :
  noParentLinks cs -> parentOf cs c = None.
Proof.
  intros H. unfold parentOf.
  destruct (find (fun x => (Comment.id x =? c)%N) cs) as [x|] eqn:E;
    [|reflexivity].
  apply find_some in E. destruct E as [Hin _].
  unfold noParentLinks in H. rewrite Forall_forall in H. now apply H.
Qed.

Lemma noParentLinks_ancestor (cs : list Comment.t) (c : Id) (n : nat) :
  noParentLinks cs -> ancestor cs (S n) c = None.
Proof. intros H. simpl. now rewrite noParentLinks_parentOf. Qed.

Lemma noParentLinks_acyclic (cs : list Comment.t) :
  noParentLinks cs -> ~ hasCycle cs.
Proof.
  intros H (c & n & _ & E).
  rewrite noParentLinks_ancestor in E by assumption. discriminate.
Qed.

Lemma handleCommentSubmit_comments (createdAt updatedAt : DateTime)
  (user : option Id) (postId : Id) (st : Store) (ui : PostList.UI) :
  let st' := fst (PostList.handleCommentSubmit createdAt updatedAt user postId
                    st ui) in
  comments st' = comments st
  \/ exists row, Comment.parentCommentId row = None
                 /\ Comment.postId row = postId
                 /\ comments st' = comments st ++ [row].
Proof.
  unfold PostList.handleCommentSubmit.
  destruct user as [userId|]; [|now left].
  destruct (PostList.ui_newComments ui postId) as [text|]; [|now left].
  destruct (truthy (trim text)); [|now left].
  right. simpl. eexists. refine (conj _ (conj _ eq_refl)); reflexivity.
Qed.

Lemma handleCommentSubmit_roots (createdAt updatedAt : DateTime)
  (user : option Id) (postId : Id) (st : Store) (ui : PostList.UI) :
  noParentLinks (comments st) ->
  noParentLinks
    (comments (fst (PostList.handleCommentSubmit createdAt updatedAt user
                      postId st ui))).
Proof.
  intros H.
  destruct (handleCommentSubmit_comments createdAt updatedAt user postId st ui)
    as [E|(row & Hrow & _ & E)]; rewrite E; [exact H|].
  unfold noParentLinks. apply Forall_app. split; [exact H|].
  now repeat constructor.
Qed.

Lemma submitAll_roots (l : list Submission) (state : Store * PostList.UI) :
  noParentLinks (comments (fst state)) ->
  noParentLinks (comments (fst (submitAll l state))).
Proof.
  revert state. induction l as [|s l IH]; intros state H; [exact H|].
  simpl. apply IH. unfold submit. now apply handleCommentSubmit_roots.
Qed.

(** C8, as stated, fails: [fetchComments] lists the two comments of a
    parent cycle like any others, and in a cycle-free thread it lists a
    reply before the comment it answers. *)
Lemma fetchComments_ignores_parents :
  hasCycle (comments Scenario.cyclic)
  /\ option_map (map PostList.CommentView.id)
       (PostList.ui_comments
          (PostList.fetchComments 4%N Scenario.cyclic PostList.emptyUI) 4%N)
     = Some [5; 6]%N
  /\ ~ hasCycle (comments Scenario.threaded)
  /\ parentOf (comments Scenario.threaded) 7%N = Some 5%N
  /\ map PostList.CommentView.id
       (PostList.commentData 4%N Scenario.threaded) = [7; 6; 5]%N.
Proof.
  split; [|split; [|split; [|split]]]; try reflexivity.
  - exists 5%N, 1%nat. split; [now left|reflexivity].
  - intros (c & n & Hin & E).
    simpl in Hin. destruct Hin as [<-|[<-|[<-|[]]]];
      try discriminate E.
    destruct n; discriminate E.
Qed.

(** C8, amended: for every set of comments, with or without a parent cycle,
    [fetchComments] ends and stores under the post a flat list that holds
    each active comment of the post exactly once; it reads no
    [parentCommentId], gives no depth and has no [CycleDetected] failure.
    When no comment carries a parent link, every comment is a root: its
    chain of ancestors is empty. *)
Theorem fetchComments_flat (postId : Id) (st : Store) (ui : PostList.UI) :
  PostList.ui_comments (PostList.fetchComments postId st ui) postId
  = Some (PostList.commentData postId st)
  /\ Permutation
       (map PostList.CommentView.id (PostList.commentData postId st))
       (map Comment.id (filter (PostList.commentFilter postId) (comments st)))
  /\ (noParentLinks (comments st) ->
      forall c n, ancestor (comments st) (S n) c = None).
Proof.
  split; [|split].
  - unfold PostList.fetchComments, PostList.assign. simpl.
    now rewrite N.eqb_refl.
  - unfold PostList.commentData.
    rewrite (Permutation_map _ (sort_perm _ _)).
    rewrite map_map. simpl. reflexivity.
  - intros H c n. now apply noParentLinks_ancestor.
Qed.

Lemma fetchComments_flat_witness :
  ancestor (comments Scenario.withComments) 1 5%N = None.
Proof.
  apply (fetchComments_flat 4%N Scenario.withComments PostList.emptyUI).
  repeat constructor.
Defined.

(** C10: [handleCommentSubmit] never sets [parentCommentId]: a submission
    adds at most one comment, a root; so after any sequence of submissions
    to a comment set without parent links the set still has none, and it
    has no parent cycle. *)
Theorem submitted_comments_are_roots (l : list Submission) (st : Store)
  (ui : PostList.UI) :
  noParentLinks (comments st) ->
  (forall s : Submission,
      comments (fst (submit s (st, ui))) = comments st
      \/ exists row, Comment.parentCommentId row = None
                     /\ comments (fst (submit s (st, ui)))
                        = comments st ++ [row])
  /\ noParentLinks (comments (fst (submitAll l (st, ui))))
  /\ ~ hasCycle (comments (fst (submitAll l (st, ui)))).
Proof.
  intros H. split; [|split].
  - intros s. unfold submit.
    match goal with
    | |- context [PostList.handleCommentSubmit ?a ?b ?u ?p ?s0 ?u0] =>
        destruct (handleCommentSubmit_comments a b u p s0 u0)
          as [E|(row & Hrow & _ & E)]
    end; [now left|right; now exists row].
  - now apply submitAll_roots.
  - apply noParentLinks_acyclic. now apply submitAll_roots.
Qed.

Lemma submitted_comments_are_roots_witness :
  map Comment.parentCommentId (comments Scenario.withComments) = [None; None]
  /\ ~ hasCycle (comments Scenario.withComments).
Proof.
  split; [reflexivity|].
  apply (@submitted_comments_are_roots Scenario.twoComments
           Scenario.withPost PostList.emptyUI).
  constructor.
Defined.

(** ** Counters *)

Lemma CreatePost_channels (now : DateTime) (userId : Id) (citySlug : jsstring)
  (channelSlug : option jsstring) (locationData : option LocationRef)
  (selectedChannel : option Id) (postType : CreatePost.FormType)
  (formData : CreatePost.FormData) (st : Store) :
  channels (fst (CreatePost.handleSubmit now userId citySlug channelSlug
                   locationData selectedChannel postType formData st))
  = channels st.
Proof.
  unfold CreatePost.handleSubmit.
  destruct (truthy (trim (CreatePost.title formData))); simpl;
    [|reflexivity].
  destruct (CreatePost.isText postType
            && negb (truthy (trim (CreatePost.content formData))));
    [reflexivity|].
  destruct (CreatePost.isLink postType
            && negb (truthy (trim (CreatePost.linkUrl formData))));
    [reflexivity|].
  destruct selectedChannel, locationData; reflexivity.
Qed.

Lemma handleCommentSubmit_posts (createdAt updatedAt : DateTime)
  (user : option Id) (postId : Id) (st : Store) (ui : PostList.UI) :
  posts (fst (PostList.handleCommentSubmit createdAt updatedAt user postId
                st ui))
  = posts st.
Proof.
  unfold PostList.handleCommentSubmit.
  destruct user; [|reflexivity].
  destruct (PostList.ui_newComments ui postId) as [text|]; [|reflexivity].
  destruct (truthy (trim text)); reflexivity.
Qed.

(** C7, as stated, fails: after a post is created in a channel the
    channel's [postCount] is still 0, and after two comments are created on
    a post its [commentCount] is still 0. *)
Lemma counters_not_maintained :
  map Channel.postCount (channels Scenario.withPost) = [Some 0%Z]
  /\ length (filter (fun p => (Post.channelId p =? 3)%N)
                    (posts Scenario.withPost)) = 1%nat
  /\ map Post.commentCount (posts Scenario.withComments) = [Some 0%Z]
  /\ length (filter (fun c => (Comment.postId c =? 4)%N)
                    (comments Scenario.withComments)) = 2%nat.
Proof. repeat split. Qed.

(** C7, amended: creating a post or a comment writes no counter: the
    channel rows, with their stored [postCount], and the post rows, with
    their stored [commentCount], stay as they were.  Counts are computed
    only when a loader runs: in what a call of [fetchPosts] returns, the
    [commentCount] of an entry is the number of comments of that post in the
    store at that call, and in what the city page's loader returns, the
    [postCount] of a card is the number of posts of that channel.  A comment
    submission reloads the comment list and not the feed: the posts on
    screen, with the counts they carry, are the same after it as before. *)
Theorem counters_computed_on_read :
  (forall now userId citySlug channelSlug locationData selectedChannel
          postType formData st,
      channels (fst (CreatePost.handleSubmit now userId citySlug channelSlug
                       locationData selectedChannel postType formData st))
      = channels st)
  /\ (forall createdAt updatedAt user postId st ui,
      posts (fst (PostList.handleCommentSubmit createdAt updatedAt user postId
                    st ui))
      = posts st)
  /\ (forall locationId channelId st v,
      In v (PostList.fetchPosts locationId channelId st) ->
      PostList.PostView.commentCount v
      = Z.of_nat (length (filter
                    (fun c => (Comment.postId c =? PostList.PostView.id v)%N)
                    (comments st))))
  /\ (forall locationId st card,
      In card (CityView.channelData locationId st) ->
      CityView.card_postCount card
      = Z.of_nat (length (filter
                    (fun p => (Post.channelId p =? CityView.card_id card)%N)
                    (posts st))))
  /\ (forall createdAt updatedAt user postId st screen,
      PostList.screen_posts
        (snd (PostList.submitOnScreen createdAt updatedAt user postId st
                screen))
      = PostList.screen_posts screen).
Proof.
  split; [exact CreatePost_channels|].
  split; [exact handleCommentSubmit_posts|].
  split; [|split].
  - intros locationId channelId st v Hin.
    unfold PostList.fetchPosts in Hin.
    apply (Permutation_in _ (sort_perm _ _)) in Hin.
    apply in_map_iff in Hin. destruct Hin as [post [<- _]]. reflexivity.
  - intros locationId st card Hin.
    unfold CityView.channelData in Hin.
    apply in_map_iff in Hin. destruct Hin as [channel [<- _]]. reflexivity.
  - reflexivity.
Qed.

(** On the screen of the channel, after a comment on the post: the count
    shown is still 0, where a new call of [fetchPosts] gives 1. *)
Example comment_count_on_screen :
  let screen := PostList.mount None (Some 3%N) Scenario.withPost in
  let result :=
    PostList.submitOnScreen 60%Z 60%Z (Some Scenario.alice) 4%N
      Scenario.withPost
      (PostList.mkScreen (PostList.screen_posts screen)
         (PostList.mkUI (fun _ => None) (fun _ => Some (lit "first!")))) in
  (map PostList.PostView.commentCount (PostList.screen_posts (snd result)),
   map PostList.PostView.commentCount
       (PostList.fetchPosts None (Some 3%N) (fst result)),
   length (comments (fst result)))
  = ([0%Z], [1%Z], 1%nat).
Proof. reflexivity. Qed.

Lemma counters_computed_on_read_witness :
  map PostList.PostView.commentCount
      (PostList.fetchPosts None (Some 3%N) Scenario.withComments) = [2%Z]
  /\ PostList.PostView.commentCount
       (PostList.postSummary (Some 3%N) Scenario.withComments
          Scenario.welcomePost)
     = Z.of_nat (length (filter (fun c => (Comment.postId c =? 4)%N)
                                (comments Scenario.withComments))).
Proof.
  split; [reflexivity|].
  destruct counters_computed_on_read as [_ [_ [H _]]].
  apply (H None (Some 3%N) Scenario.withComments
           (PostList.postSummary (Some 3%N) Scenario.withComments
              Scenario.welcomePost)).
  left. reflexivity.
Defined.

(** ** Votes *)

Import ScoreAggregator.

Lemma find_bumpPost (p : Id) (a b : Z) (l : list Post.t) :
  find (fun r => (Post.id r =? p)%N)
       (map (fun r => if (Post.id r =? p)%N then bumpPost a b r else r) l)
  = option_map (bumpPost a b) (find (fun r => (Post.id r =? p)%N) l).
Proof.
  induction l as [|r l IH]; [reflexivity|].
  simpl. destruct (Post.id r =? p)%N eqn:E; simpl; rewrite E; auto.
Qed.

Lemma find_bumpComment (c : Id) (a b : Z) (l : list Comment.t) :
  find (fun r => (Comment.id r =? c)%N)
       (map (fun r => if (Comment.id r =? c)%N then bumpComment a b r else r) l)
  = option_map (bumpComment a b) (find (fun r => (Comment.id r =? c)%N) l).
Proof.
  induction l as [|r l IH]; [reflexivity|].
  simpl. destruct (Comment.id r =? c)%N eqn:E; simpl; rewrite E; auto.
Qed.

Lemma counters_bump (t : Target) (a b u d s : Z) (st : Store) :
  counters t st = Some (u, d, s) ->
  counters t (bump t a b st) = Some (u + a, d + b, (u + a) - (d + b))%Z.
Proof.
  destruct t as [p|c]; simpl.
  - rewrite find_bumpPost.
    destruct (find (fun r => (Post.id r =? p)%N) (posts st)); simpl;
      [|discriminate].
    intros E. injection E as <- <- _. reflexivity.
  - rewrite find_bumpComment.
    destruct (find (fun r => (Comment.id r =? c)%N) (comments st)); simpl;
      [|discriminate].
    intros E. injection E as <- <- _. reflexivity.
Qed.

Lemma targetFound_bump (t : Target) (a b : Z) (st : Store) :
  targetFound t (bump t a b st) = targetFound t st.
Proof.
  destruct t as [p|c]; simpl.
  - rewrite find_bumpPost.
    now destruct (find (fun r => (Post.id r =? p)%N) (posts st)).
  - rewrite find_bumpComment.
    now destruct (find (fun r => (Comment.id r =? c)%N) (comments st)).
Qed.

Lemma votes_bump (t : Target) (a b : Z) (st : Store) :
  votes (bump t a b st) = votes st.
Proof. now destruct t. Qed.

Lemma counters_setVotes (t : Target) (st : Store) (l : list Vote.t) (n : Id) :
  counters t (setVotes st l n) = counters t st.
Proof. now destruct t. Qed.

Lemma targetFound_setVotes (t : Target) (st : Store) (l : list Vote.t) (n : Id) :
  targetFound t (setVotes st l n) = targetFound t st.
Proof. now destruct t. Qed.

Lemma count_app_one (A : Type) (g : A -> bool) (l : list A) (x : A) :
  Z.of_nat (length (filter g (l ++ [x])))
  = (Z.of_nat (length (filter g l)) + unit_of (g x))%Z.
Proof.
  rewrite filter_app, length_app. simpl.
  destruct (g x); simpl; lia.
Qed.

Lemma count_updateFirst (A : Type) (p g : A -> bool) (f : A -> A)
  (l : list A) (x : A) :
  find p l = Some x ->
  (Z.of_nat (length (filter g (updateFirst p f l)))
   = Z.of_nat (length (filter g l)) + unit_of (g (f x)) - unit_of (g x))%Z.
Proof.
  induction l as [|y l IH]; [discriminate|].
  simpl. destruct (p y) eqn:Hp.
  - intros E. injection E as E. rewrite E. cbn [filter].
    destruct (g (f x)), (g x); unfold unit_of; cbn [length]; lia.
  - intros E. specialize (IH E). cbn [filter].
    destruct (g y); cbn [length]; lia.
Qed.

Lemma find_none_filter (A : Type) (p : A -> bool) (l : list A) :
  find p l = None -> filter p l = [].
Proof.
  induction l as [|y l IH]; [reflexivity|].
  simpl. destruct (p y); [discriminate|exact IH].
Qed.

Lemma find_some_filter (A : Type) (p : A -> bool) (l : list A) (x : A) :
  find p l = Some x -> (1 <= length (filter p l))%nat.
Proof.
  intros E. apply find_some in E. destruct E as [Hin Hp].
  assert (In x (filter p l)) as H by (apply filter_In; auto).
  destruct (filter p l); [contradiction|simpl; lia].
Qed.

Lemma votesOn_retype (t : Target) (ty : VoteType) (v : Vote.t) :
  votesOn t (retype ty v) = votesOn t v.
Proof. now destruct t. Qed.

Lemma voteOf_retype (u : Id) (t : Target) (ty : VoteType) (v : Vote.t) :
  voteOf u t (retype ty v) = voteOf u t v.
Proof. unfold voteOf. now rewrite votesOn_retype. Qed.

Lemma voteOf_newVote (now : DateTime) (u : Id) (t : Target) (ty : VoteType)
  (st : Store) :
  voteOf u t (newVote now u t ty st) = true.
Proof. destruct t; unfold voteOf; simpl; now rewrite !N.eqb_refl. Qed.

Lemma recorded_bump (ty : VoteType) (t : Target) (a b : Z) (st : Store) :
  recorded ty t (bump t a b st) = recorded ty t st.
Proof. unfold recorded. now rewrite votes_bump. Qed.

Lemma recorded_insert (now : DateTime) (u : Id) (t : Target)
  (ty ty' : VoteType) (st : Store) (n : Id) :
  recorded ty' t (setVotes st (votes st ++ [newVote now u t ty st]) n)
  = (recorded ty' t st + unit_of (VoteType_eqb ty ty'))%Z.
Proof.
  unfold recorded. simpl votes. rewrite count_app_one. f_equal.
  pose proof (voteOf_newVote now u t ty st) as H.
  unfold voteOf in H. apply andb_true_iff in H. destruct H as [_ ->].
  now destruct t.
Qed.

Lemma recorded_retype (u : Id) (t : Target) (ty ty' : VoteType) (st : Store)
  (n : Id) (prior : Vote.t) :
  find (voteOf u t) (votes st) = Some prior ->
  recorded ty' t
    (setVotes st (updateFirst (voteOf u t) (retype ty) (votes st)) n)
  = (recorded ty' t st + unit_of (VoteType_eqb ty ty')
     - unit_of (hasType ty' prior))%Z.
Proof.
  intros E. unfold recorded. simpl votes.
  rewrite (count_updateFirst _ _ _ _ E).
  apply find_some in E. destruct E as [_ E].
  unfold voteOf in E. apply andb_true_iff in E. destruct E as [_ E].
  rewrite votesOn_retype, E. reflexivity.
Qed.

Lemma counters_eq (a b c a' b' c' : Z) :
  a = a' -> b = b' -> c = c' -> Some (a, b, c) = Some (a', b', c').
Proof. congruence. Qed.

Lemma castVote_step (now : DateTime) (u : Id) (t : Target) (ty : VoteType)
  (st : Store) :
  targetFound t st = true ->
  counted t st ->
  (length (rowsOf u t st) <= 1)%nat ->
  exists st',
    castVote now u t ty st = inl st'
    /\ targetFound t st' = true
    /\ counted t st'
    /\ length (rowsOf u t st') = 1%nat.
Proof.
  intros Hfound Hcount Hrows. unfold castVote. rewrite Hfound. simpl negb.
  cbv iota. destruct (find (voteOf u t) (votes st)) as [prior|] eqn:Ef.
  - pose proof (find_some_filter _ _ Ef) as Hone.
    destruct (hasType ty prior) eqn:Hty.
    + exists st. repeat split; auto. unfold rowsOf in *. lia.
    + eexists. split; [reflexivity|].
      rewrite targetFound_bump, targetFound_setVotes.
      split; [exact Hfound|]. split.
      * unfold counted in *. rewrite !recorded_bump.
        rewrite !(@recorded_retype u t ty _ st _ prior Ef).
        erewrite counters_bump;
          [|rewrite counters_setVotes; exact Hcount].
        unfold hasType in *.
        destruct ty, (Vote.type prior) as [[|]|]; simpl in *;
          try discriminate; apply counters_eq; lia.
      * unfold rowsOf in *. rewrite votes_bump. simpl votes.
        apply Nat2Z.inj.
        rewrite (count_updateFirst _ (voteOf u t) _ _ Ef).
        rewrite voteOf_retype. lia.
  - eexists. split; [reflexivity|].
    rewrite targetFound_bump, targetFound_setVotes.
    split; [exact Hfound|]. split.
    + unfold counted in *. rewrite !recorded_bump, !recorded_insert.
      erewrite counters_bump;
        [|rewrite counters_setVotes; exact Hcount].
      destruct ty; simpl; apply counters_eq; lia.
    + unfold rowsOf. rewrite votes_bump. simpl votes.
      rewrite filter_app, (find_none_filter _ _ Ef). simpl.
      now rewrite voteOf_newVote.
Qed.

Lemma castVotes_steps (now : DateTime) (u : Id) (t : Target)
  (tys : list VoteType) (st : Store) :
  targetFound t st = true ->
  counted t st ->
  length (rowsOf u t st) = 1%nat ->
  exists st',
    castVotes now u t tys st = inl st'
    /\ counted t st'
    /\ length (rowsOf u t st') = 1%nat.
Proof.
  revert st. induction tys as [|ty tys IH]; intros st Hf Hc Hr.
  - exists st. auto.
  - destruct (@castVote_step now u t ty st Hf Hc)
      as (st1 & E & Hf1 & Hc1 & Hr1); [lia|].
    simpl. rewrite E. now apply IH.
Qed.

(** C1: for every sequence of votes a user casts on one post or comment,
    after each [castVote] the score of the target is the number of upvotes
    recorded for it minus the number of downvotes recorded for it, and
    exactly one [Vote] row exists for the user and the target.  The
    sequence starts where the target is active, its counters agree with
    the recorded votes and the user has at most one vote on it. *)
Theorem castVote_score_invariant (now : DateTime) (u : Id) (t : Target)
  (ty : VoteType) (tys : list VoteType) (st : Store) :
  targetFound t st = true ->
  counted t st ->
  (length (rowsOf u t st) <= 1)%nat ->
  exists st',
    castVotes now u t (ty :: tys) st = inl st'
    /\ scoreOf t st'
       = Some (recorded Upvote t st' - recorded Downvote t st')%Z
    /\ length (rowsOf u t st') = 1%nat.
Proof.
  intros Hf Hc Hr.
  destruct (@castVote_step now u t ty st Hf Hc Hr)
    as (st1 & E & Hf1 & Hc1 & Hr1).
  destruct (@castVotes_steps now u t tys st1 Hf1 Hc1 Hr1)
    as (st' & E' & Hc' & Hr').
  exists st'. simpl. rewrite E. split; [exact E'|]. split; [|exact Hr'].
  unfold scoreOf. unfold counted in Hc'. now rewrite Hc'.
Qed.

(** The scenario of the specification: user A upvotes a fresh post, then
    downvotes it. *)
Lemma castVote_score_invariant_witness :
  exists st',
    castVotes 80%Z Scenario.alice (OnPost 4%N) Scenario.upThenDown
      Scenario.withPost = inl st'
    /\ scoreOf (OnPost 4%N) st'
       = Some (recorded Upvote (OnPost 4%N) st'
               - recorded Downvote (OnPost 4%N) st')%Z
    /\ length (rowsOf Scenario.alice (OnPost 4%N) st') = 1%nat.
Proof.
  apply castVote_score_invariant.
  - reflexivity.
  - reflexivity.
  - apply Nat.le_0_l.
Defined.

Example castVote_up :
  Scenario.tally (castVotes 80%Z Scenario.alice (OnPost 4%N) [Upvote]
             Scenario.withPost)
  = (Some (1, 0, 1)%Z, 1%nat).
Proof. reflexivity. Qed.

Example castVote_up_down :
  Scenario.tally (castVotes 80%Z Scenario.alice (OnPost 4%N) Scenario.upThenDown
             Scenario.withPost)
  = (Some (0, 1, -1)%Z, 1%nat).
Proof. reflexivity. Qed.

Example castVote_up_up :
  Scenario.tally (castVotes 80%Z Scenario.alice (OnPost 4%N) [Upvote; Upvote]
             Scenario.withPost)
  = (Some (1, 0, 1)%Z, 1%nat).
Proof. reflexivity. Qed.

Example castVote_missing_target :
  castVote 80%Z Scenario.alice (OnPost 9%N) Upvote Scenario.withPost
  = inr TargetNotFound.
Proof. reflexivity. Qed.

(** * Further properties of the code *)

(** ** More on slugs *)

Lemma collapseRuns_outside (p : N -> bool) (s : jsstring) :
  Forall (fun c => p c = false) s -> Spec.collapseRuns p s = s.
Proof.
  induction 1 as [|c s Hc _ IH]; [reflexivity|].
  rewrite collapseRuns_skip by exact Hc. now rewrite IH.
Qed.

Lemma isHyphen_eq (c : N) : isHyphen c = true -> c = hyphen.
Proof. apply N.eqb_eq. Qed.

Lemma collapseRuns_single (s : jsstring) :
  doubled s = false -> Spec.collapseRuns isHyphen s = s.
Proof.
  induction s as [|c s IH]; [reflexivity|].
  destruct s as [|d s'].
  - intros _. simpl. destruct (isHyphen c) eqn:Hc; [|reflexivity].
    now rewrite (isHyphen_eq c Hc).
  - rewrite doubled_cons. intros H. apply orb_false_iff in H.
    destruct H as [Hcd Hrest]. specialize (IH Hrest).
    change (Spec.collapseRuns isHyphen (c :: d :: s'))
      with (if isHyphen c then
              if isHyphen d then Spec.collapseRuns isHyphen (d :: s')
              else hyphen :: Spec.collapseRuns isHyphen (d :: s')
            else c :: Spec.collapseRuns isHyphen (d :: s')).
    rewrite IH. destruct (isHyphen c) eqn:Hc; [|reflexivity].
    simpl in Hcd. rewrite Hcd. now rewrite (isHyphen_eq c Hc).
Qed.

Lemma lowerUnit_slugChar (c : N) : slugChar c = true -> lowerUnit c = [c].
Proof.
  intros H. destruct (slugChar_plain c H) as [_ Hup].
  unfold lowerUnit. rewrite Hup.
  assert ((c <= 122)%N) as Hle.
  { unfold slugChar, isLower, isDigit, isHyphen, hyphen in H.
    repeat (apply orb_true_iff in H; destruct H as [H|H]);
      repeat (apply andb_true_iff in H; destruct H as [? H]);
      repeat match goal with
             | E : (_ <=? _)%N = true |- _ => apply N.leb_le in E
             | E : (_ =? _)%N = true |- _ => apply N.eqb_eq in E
             end; lia. }
  destruct (N.eqb_spec c 304); [lia|].
  destruct (N.eqb_spec c 8490); [lia|reflexivity].
Qed.

Lemma toLowerCase_slug (s : jsstring) :
  Forall (fun c => slugChar c = true) s -> toLowerCase s = s.
Proof.
  unfold toLowerCase. induction 1 as [|c s Hc _ IH]; [reflexivity|].
  simpl. now rewrite (lowerUnit_slugChar c Hc), IH.
Qed.

Lemma strip_slug (s : jsstring) :
  Forall (fun c => slugChar c = true) s -> Spec.strip s = s.
Proof.
  unfold Spec.strip. induction 1 as [|c s Hc _ IH]; [reflexivity|].
  simpl. rewrite IH. unfold slugChar in Hc.
  destruct (isLower c), (isDigit c), (isWhiteSpace c), (isHyphen c);
    simpl in *; congruence.
Qed.

(** The slug of a slug is the slug itself: a city or channel whose name is
    already a slug keeps it as its slug. *)
Theorem generateSlug_idempotent (name : jsstring) :
  generateSlug (generateSlug name) = generateSlug name.
Proof.
  rewrite !generateSlug_collapsed.
  pose proof (collapsed_slugChars name) as Hs.
  pose proof (collapsed_no_space name) as Hw.
  unfold Spec.collapsed at 1.
  rewrite (toLowerCase_slug Hs), (strip_slug Hs).
  rewrite (collapseRuns_outside _ Hw).
  apply collapseRuns_single.
  unfold Spec.collapsed. apply collapseRuns_not_doubled.
Qed.

Lemma collapseRuns_nil (p : N -> bool) (s : jsstring) :
  Spec.collapseRuns p s = [] <-> s = [].
Proof.
  split; [|intros ->; reflexivity].
  induction s as [|c s IH]; [reflexivity|].
  simpl. destruct (p c); [|discriminate].
  destruct s as [|d s']; [discriminate|].
  destruct (p d); [|discriminate].
  intros H. specialize (IH H). discriminate.
Qed.

(** The slug is empty exactly when the lower-cased name has no letter of
    [a-z], no digit, no white space and no hyphen; the empty name is the
    first such name. *)
Theorem generateSlug_empty (name : jsstring) :
  generateSlug name = []
  <-> Forall (fun c => notSlugChar c = true) (toLowerCase name).
Proof.
  rewrite generateSlug_collapsed. unfold Spec.collapsed.
  rewrite !collapseRuns_nil. unfold Spec.strip, notSlugChar.
  induction (toLowerCase name) as [|c s IH]; [split; auto|].
  simpl.
  destruct (isLower c || isDigit c || isWhiteSpace c || isHyphen c) eqn:E;
    simpl.
  - split; [discriminate|]. intros H.
    inversion H as [|? ? Hc Hs]. simpl in Hc. rewrite E in Hc. discriminate.
  - rewrite IH. split.
    + intros H. constructor; [now rewrite E|exact H].
    + intros H. now inversion H.
Qed.

Lemma collapseRuns_length (p : N -> bool) (s : jsstring) :
  (length (Spec.collapseRuns p s) <= length s)%nat.
Proof.
  induction s as [|c s IH]; [reflexivity|].
  destruct s as [|d s'].
  - simpl. destruct (p c); simpl; lia.
  - change (Spec.collapseRuns p (c :: d :: s'))
      with (if p c then
              if p d then Spec.collapseRuns p (d :: s')
              else hyphen :: Spec.collapseRuns p (d :: s')
            else c :: Spec.collapseRuns p (d :: s')).
    destruct (p c), (p d); cbn [length] in *; lia.
Qed.

Lemma strip_lower_length (name : jsstring) :
  (length (Spec.strip (toLowerCase name)) <= length name)%nat.
Proof.
  unfold Spec.strip, toLowerCase.
  induction name as [|c s IH]; [reflexivity|].
  cbn [flat_map]. rewrite filter_app, length_app. cbn [length].
  enough (length (filter
            (fun c0 => isLower c0 || isDigit c0 || isWhiteSpace c0
                       || isHyphen c0) (lowerUnit c)) <= 1)%nat by lia.
  unfold lowerUnit.
  destruct (isUpper c); [simpl; destruct (_ || _); simpl; lia|].
  destruct (c =? 304)%N; [simpl; lia|].
  destruct (c =? 8490)%N; [simpl; lia|].
  simpl; destruct (_ || _); simpl; lia.
Qed.

(** A slug is never longer than the name it comes from. *)
Theorem generateSlug_length (name : jsstring) :
  (length (generateSlug name) <= length name)%nat.
Proof.
  rewrite generateSlug_collapsed. unfold Spec.collapsed.
  pose proof (collapseRuns_length isHyphen
                (Spec.collapseRuns isWhiteSpace
                   (Spec.strip (toLowerCase name)))).
  pose proof (collapseRuns_length isWhiteSpace
                (Spec.strip (toLowerCase name))).
  pose proof (strip_lower_length name). lia.
Qed.

(** ** What one submission does *)

Lemma filter_all_false (A : Type) (f : A -> bool) (l : list A) :
  (0 <? length (filter f l))%nat = false ->
  forall x, In x l -> f x = false.
Proof.
  intros H x Hin. destruct (f x) eqn:E; [|reflexivity].
  rewrite (filter_found f x l Hin E) in H. discriminate.
Qed.

(** The two ways a city form ends. *)
Lemma CreateCity_cases (now : DateTime) (formData : CreateCity.FormData)
  (st : Store) :
  (exists e, CreateCity.handleSubmit now formData st = (st, Rejected e))
  \/ (truthy (trim (CreateCity.name formData)) = true
      /\ truthy (trim (CreateCity.state formData)) = true
      /\ (forall l, In l (locations st) ->
            Location.slug l <> generateSlug (CreateCity.name formData))
      /\ CreateCity.handleSubmit now formData st
         = (setLocations st
              (locations st
               ++ [Location.mk (nextId st) (trim (CreateCity.name formData))
                     (generateSlug (CreateCity.name formData))
                     (orUndefined (trim (CreateCity.description formData)))
                     (Some (trim (CreateCity.state formData)))
                     (Some (trim (CreateCity.country formData)))
                     (Some true) now])
              (N.succ (nextId st)),
            Navigated (lit "/city/"
                       ++ generateSlug (CreateCity.name formData)))).
Proof.
  unfold CreateCity.handleSubmit.
  destruct (truthy (trim (CreateCity.name formData))); simpl;
    [|left; eauto].
  destruct (truthy (trim (CreateCity.state formData))); simpl;
    [|left; eauto].
  destruct (0 <? length _)%nat eqn:E; [left; eauto|].
  right. repeat split; auto.
  intros l Hin Hslug.
  pose proof (filter_all_false _ _ E l Hin) as H. simpl in H.
  apply jsstring_eqb_eq in Hslug. congruence.
Qed.

(** The two ways a channel form ends. *)
Lemma CreateChannel_cases (now : DateTime) (userId : Id) (citySlug : jsstring)
  (location : option LocationRef) (formData : CreateChannel.FormData)
  (st : Store) :
  (exists e,
      CreateChannel.handleSubmit now userId citySlug location formData st
      = (st, Rejected e))
  \/ (exists loc,
        location = Some loc
        /\ truthy (trim (CreateChannel.name formData)) = true
        /\ (forall c, In c (channels st) ->
              Channel.locationId c = ref_id loc ->
              Channel.slug c <> generateSlug (CreateChannel.name formData))
        /\ CreateChannel.handleSubmit now userId citySlug location formData st
           = (setChannels st
                (channels st
                 ++ [Channel.mk (nextId st) (ref_id loc)
                       (trim (CreateChannel.name formData))
                       (generateSlug (CreateChannel.name formData))
                       (orUndefined (trim (CreateChannel.description formData)))
                       (orUndefined (trim (CreateChannel.rules formData)))
                       (Some (CreateChannel.color formData))
                       (Some true) now userId (Some 0%Z) (Some 0%Z)])
                (N.succ (nextId st)),
              Navigated (lit "/city/" ++ citySlug ++ lit "/channel/"
                         ++ generateSlug (CreateChannel.name formData)))).
Proof.
  unfold CreateChannel.handleSubmit.
  destruct (truthy (trim (CreateChannel.name formData))); simpl;
    [|left; eauto].
  destruct location as [loc|]; [|left; eauto].
  destruct (0 <? length _)%nat eqn:E; [left; eauto|].
  right. exists loc. repeat split; auto.
  intros c Hin Hloc Hslug.
  pose proof (filter_all_false _ _ E c Hin) as H. simpl in H.
  apply jsstring_eqb_eq in Hslug. apply N.eqb_eq in Hloc.
  rewrite Hslug, Hloc in H. discriminate.
Qed.

(** The two ways a post form ends. *)
Lemma CreatePost_cases (now : DateTime) (userId : Id) (citySlug : jsstring)
  (channelSlug : option jsstring) (locationData : option LocationRef)
  (selectedChannel : option Id) (postType : CreatePost.FormType)
  (formData : CreatePost.FormData) (st : Store) :
  (exists e,
      CreatePost.handleSubmit now userId citySlug channelSlug locationData
        selectedChannel postType formData st = (st, Rejected e))
  \/ (exists loc channel path,
        locationData = Some loc /\ selectedChannel = Some channel
        /\ truthy (trim (CreatePost.title formData)) = true
        /\ (CreatePost.isText postType = true ->
            truthy (trim (CreatePost.content formData)) = true)
        /\ (CreatePost.isLink postType = true ->
            truthy (trim (CreatePost.linkUrl formData)) = true)
        /\ CreatePost.handleSubmit now userId citySlug channelSlug
             locationData selectedChannel postType formData st
           = (setPosts st
                (posts st
                 ++ [postRow now userId loc channel postType formData st])
                (N.succ (nextId st)),
              Navigated path)).
Proof.
  unfold CreatePost.handleSubmit.
  destruct (truthy (trim (CreatePost.title formData))); simpl;
    [|left; eauto].
  destruct (CreatePost.isText postType
            && negb (truthy (trim (CreatePost.content formData)))) eqn:Ht;
    [left; eauto|].
  destruct (CreatePost.isLink postType
            && negb (truthy (trim (CreatePost.linkUrl formData)))) eqn:Hl;
    [left; eauto|].
  destruct selectedChannel as [channel|]; [|left; eauto].
  destruct locationData as [loc|]; [|left; eauto].
  right. exists loc, channel. eexists.
  repeat split; auto.
  - intros H. rewrite H in Ht. simpl in Ht.
    now destruct (truthy (trim (CreatePost.content formData))).
  - intros H. rewrite H in Hl. simpl in Hl.
    now destruct (truthy (trim (CreatePost.linkUrl formData))).
Qed.

(** The two ways a comment submission ends. *)
Lemma handleCommentSubmit_cases (createdAt updatedAt : DateTime)
  (user : option Id) (postId : Id) (st : Store) (ui : PostList.UI) :
  PostList.handleCommentSubmit createdAt updatedAt user postId st ui = (st, ui)
  \/ (exists userId text,
        user = Some userId
        /\ PostList.ui_newComments ui postId = Some text
        /\ truthy (trim text) = true
        /\ let st' :=
             setComments st
               (comments st
                ++ [Comment.mk (nextId st) postId userId None (trim text)
                      (Some true) createdAt updatedAt
                      (Some 0%Z) (Some 0%Z) (Some 0%Z)])
               (N.succ (nextId st)) in
           PostList.handleCommentSubmit createdAt updatedAt user postId st ui
           = (st',
              PostList.mkUI
                (PostList.assign (PostList.ui_comments ui) postId
                   (PostList.commentData postId st'))
                (PostList.assign (PostList.ui_newComments ui) postId []))).
Proof.
  unfold PostList.handleCommentSubmit.
  destruct user as [userId|]; [|now left].
  destruct (PostList.ui_newComments ui postId) as [text|]; [|now left].
  destruct (truthy (trim text)) eqn:E; [|now left].
  right. exists userId, text. repeat split; auto.
Qed.

(** A form that ends in an error message leaves the store as it was: no
    city, channel or post is created by a rejected submission. *)
Theorem rejected_forms_store_nothing :
  (forall now formData st e,
      snd (CreateCity.handleSubmit now formData st) = Rejected e ->
      fst (CreateCity.handleSubmit now formData st) = st)
  /\ (forall now userId citySlug location formData st e,
      snd (CreateChannel.handleSubmit now userId citySlug location formData st)
      = Rejected e ->
      fst (CreateChannel.handleSubmit now userId citySlug location formData st)
      = st)
  /\ (forall now userId citySlug channelSlug locationData selectedChannel
             postType formData st e,
      snd (CreatePost.handleSubmit now userId citySlug channelSlug
             locationData selectedChannel postType formData st) = Rejected e ->
      fst (CreatePost.handleSubmit now userId citySlug channelSlug
             locationData selectedChannel postType formData st) = st).
Proof.
  split; [|split].
  - intros now formData st e.
    destruct (CreateCity_cases now formData st) as [[e' E]|(_ & _ & _ & E)];
      rewrite E; simpl; [reflexivity|discriminate].
  - intros now userId citySlug location formData st e.
    destruct (CreateChannel_cases now userId citySlug location formData st)
      as [[e' E]|(loc & _ & _ & _ & E)];
      rewrite E; simpl; [reflexivity|discriminate].
  - intros now userId citySlug channelSlug locationData selectedChannel
           postType formData st e.
    destruct (CreatePost_cases now userId citySlug channelSlug locationData
                selectedChannel postType formData st)
      as [[e' E]|(loc & ch & path & _ & _ & _ & _ & _ & E)];
      rewrite E; simpl; [reflexivity|discriminate].
Qed.

(** A guest, and a signed-in user whose comment box is empty or holds white
    space only, cannot add a comment: the submission changes neither the
    store nor the page. *)
Theorem blank_comment_ignored (createdAt updatedAt : DateTime)
  (user : option Id) (postId : Id) (st : Store) (ui : PostList.UI) :
  user = None
  \/ PostList.ui_newComments ui postId = None
  \/ (exists text, PostList.ui_newComments ui postId = Some text
                   /\ trim text = []) ->
  PostList.handleCommentSubmit createdAt updatedAt user postId st ui = (st, ui).
Proof.
  unfold PostList.handleCommentSubmit.
  intros [->|[H|(text & H & E)]]; [reflexivity| |].
  - rewrite H. now destruct user.
  - rewrite H, E. now destruct user.
Qed.

Lemma blank_comment_ignored_witness :
  PostList.handleCommentSubmit 60%Z 60%Z None 4%N Scenario.withPost
    (PostList.mkUI (fun _ => None) (fun _ => Some (lit "hello")))
  = (Scenario.withPost,
     PostList.mkUI (fun _ => None) (fun _ => Some (lit "hello"))).
Proof.
  apply blank_comment_ignored. left. reflexivity.
Defined.

Lemma sort_In (A : Type) (cmp : A -> A -> Z) (l : list A) (x : A) :
  In x (JSArray.sort cmp l) <-> In x l.
Proof.
  split; apply Permutation_in;
    [apply sort_perm|apply Permutation_sym, sort_perm].
Qed.

(** A signed-in user's comment with text: exactly one row is added, a root
    comment on that post by that user holding the trimmed text, active and
    with score 0; the comment box of the post is emptied and the post's
    list is reloaded and shows the new comment; the boxes and lists of the
    other posts stay as they were. *)
Theorem comment_submitted (createdAt updatedAt : DateTime) (userId postId : Id)
  (text : jsstring) (st : Store) (ui : PostList.UI) :
  PostList.ui_newComments ui postId = Some text ->
  truthy (trim text) = true ->
  let row := Comment.mk (nextId st) postId userId None (trim text)
               (Some true) createdAt updatedAt (Some 0%Z) (Some 0%Z)
               (Some 0%Z) in
  let result := PostList.handleCommentSubmit createdAt updatedAt (Some userId)
                  postId st ui in
  comments (fst result) = comments st ++ [row]
  /\ PostList.ui_newComments (snd result) postId = Some []
  /\ PostList.ui_comments (snd result) postId
     = Some (PostList.commentData postId (fst result))
  /\ In (PostList.commentSummary (fst result) row)
        (PostList.commentData postId (fst result))
  /\ forall other, other <> postId ->
       PostList.ui_comments (snd result) other = PostList.ui_comments ui other
       /\ PostList.ui_newComments (snd result) other
          = PostList.ui_newComments ui other.
Proof.
  intros Htext Htruthy row result. subst result.
  unfold PostList.handleCommentSubmit. rewrite Htext, Htruthy.
  cbn [fst snd]. unfold PostList.fetchComments.
  cbn [PostList.ui_comments PostList.ui_newComments comments setComments].
  unfold PostList.assign. rewrite !N.eqb_refl.
  split; [reflexivity|]. split; [reflexivity|]. split; [reflexivity|].
  split.
  - unfold PostList.commentData. apply sort_In. apply in_map.
    apply filter_In. split.
    + cbn [comments setComments]. apply in_or_app. right. now left.
    + unfold PostList.commentFilter. simpl. now rewrite N.eqb_refl.
  - intros other Hne. apply N.eqb_neq in Hne. now rewrite Hne.
Qed.

Lemma comment_submitted_witness :
  comments
    (fst (PostList.handleCommentSubmit 60%Z 60%Z (Some Scenario.alice) 4%N
            Scenario.withPost
            (PostList.mkUI (fun _ => None) (fun _ => Some (lit " hi ")))))
  = comments Scenario.withPost
    ++ [Comment.mk 5%N 4%N Scenario.alice None (lit "hi") (Some true)
          60%Z 60%Z (Some 0%Z) (Some 0%Z) (Some 0%Z)].
Proof.
  apply (@comment_submitted 60%Z 60%Z Scenario.alice 4%N (lit " hi ")
           Scenario.withPost
           (PostList.mkUI (fun _ => None) (fun _ => Some (lit " hi "))));
    reflexivity.
Defined.

(** ** What every run of submissions keeps *)

Lemma submit_cases (s : Submission) (st : Store) :
  fst (submit s (st, PostList.emptyUI)) = st
  \/ exists row,
       Comment.parentCommentId row = None
       /\ fst (submit s (st, PostList.emptyUI))
          = setComments st (comments st ++ [row]) (N.succ (nextId st)).
Proof.
  unfold submit.
  match goal with
  | |- context [PostList.handleCommentSubmit ?a ?b ?u ?p ?s0 ?u0] =>
      destruct (handleCommentSubmit_cases a b u p s0 u0)
        as [E|(userId & text & _ & _ & _ & E)]
  end.
  - left. now rewrite E.
  - right. cbv zeta in E. rewrite E. eexists. split; [|reflexivity].
    reflexivity.
Qed.

(** The cities after one submission: as before, or one more whose slug is
    new. *)
Lemma perform_locations (a : Action) (st : Store) :
  locations (perform a st) = locations st
  \/ exists row,
       ~ In (Location.slug row) (map Location.slug (locations st))
       /\ locations (perform a st) = locations st ++ [row].
Proof.
  destruct a as [now f|now u cs loc f|now u cs ch loc sel ty f|s]; simpl.
  - destruct (CreateCity_cases now f st) as [[e E]|(_ & _ & Hnew & E)];
      rewrite E; [now left|right].
    eexists. split; [|reflexivity]. simpl.
    intros Hin. apply in_map_iff in Hin. destruct Hin as (l & Hl & Hin).
    now apply (Hnew l Hin).
  - destruct (CreateChannel_cases now u cs loc f st)
      as [[e E]|(l & _ & _ & _ & E)]; rewrite E; now left.
  - destruct (CreatePost_cases now u cs ch loc sel ty f st)
      as [[e E]|(l & c & path & _ & _ & _ & _ & _ & E)]; rewrite E; now left.
  - destruct (submit_cases s st) as [E|(row & _ & E)]; rewrite E; now left.
Qed.

(** The channels after one submission: as before, or one more whose slug
    is new in its city. *)
Lemma perform_channels (a : Action) (st : Store) :
  channels (perform a st) = channels st
  \/ exists row,
       ~ In (Channel.locationId row, Channel.slug row)
            (map (fun c => (Channel.locationId c, Channel.slug c))
                 (channels st))
       /\ Channel.postCount row = Some 0%Z
       /\ channels (perform a st) = channels st ++ [row].
Proof.
  destruct a as [now f|now u cs loc f|now u cs ch loc sel ty f|s]; simpl.
  - destruct (CreateCity_cases now f st) as [[e E]|(_ & _ & _ & E)];
      rewrite E; now left.
  - destruct (CreateChannel_cases now u cs loc f st)
      as [[e E]|(l & _ & _ & Hnew & E)]; rewrite E; [now left|right].
    eexists. split; [|split; [|reflexivity]]; [|reflexivity]. simpl.
    intros Hin. apply in_map_iff in Hin. destruct Hin as (c & Hc & Hin).
    injection Hc as Hloc Hslug. now apply (Hnew c Hin).
  - destruct (CreatePost_cases now u cs ch loc sel ty f st)
      as [[e E]|(l & c & path & _ & _ & _ & _ & _ & E)]; rewrite E; now left.
  - destruct (submit_cases s st) as [E|(row & _ & E)]; rewrite E; now left.
Qed.

Lemma jsstring_eqb_refl (s : jsstring) : jsstring_eqb s s = true.
Proof. now apply jsstring_eqb_eq. Qed.

Lemma trimStart_idempotent (s : jsstring) :
  trimStart (trimStart s) = trimStart s.
Proof.
  induction s as [|c s IH]; [reflexivity|].
  simpl. destruct (isWhiteSpace c) eqn:E; [exact IH|].
  simpl. now rewrite E.
Qed.

Lemma trimStart_length (s : jsstring) :
  (length (trimStart s) <= length s)%nat.
Proof.
  induction s as [|c s IH]; [reflexivity|].
  simpl. destruct (isWhiteSpace c); simpl; lia.
Qed.

Lemma trimStart_suffix (s : jsstring) :
  exists before, s = before ++ trimStart s.
Proof.
  induction s as [|c s [before IH]]; [now exists []|].
  simpl. destruct (isWhiteSpace c).
  - exists (c :: before). simpl. now rewrite <- IH.
  - now exists [].
Qed.

Lemma trimStart_prefix (t rest : jsstring) :
  trimStart (t ++ rest) = t ++ rest -> trimStart t = t.
Proof.
  destruct t as [|c t]; [reflexivity|].
  simpl. destruct (isWhiteSpace c); [|reflexivity].
  intros H. pose proof (trimStart_length (t ++ rest)) as Hlen.
  rewrite H in Hlen. simpl in Hlen. lia.
Qed.

(** Trimming a trimmed string changes nothing. *)
Lemma trim_idempotent (s : jsstring) : trim (trim s) = trim s.
Proof.
  unfold trim, trimEnd.
  set (u := trimStart s). set (t := rev (trimStart (rev u))).
  assert (trimStart t = t) as Ht.
  { destruct (trimStart_suffix (rev u)) as [before Hb].
    apply (trimStart_prefix t (rev before)).
    assert (t ++ rev before = u) as ->.
    { subst t. rewrite <- rev_app_distr, <- Hb. apply rev_involutive. }
    apply trimStart_idempotent. }
  rewrite Ht. subst t. rewrite rev_involutive.
  now rewrite trimStart_idempotent.
Qed.

Lemma truthy_filled (s : jsstring) :
  truthy (trim s) = true -> filled (Some (trim s)) = true.
Proof.
  intros H. unfold filled, trimmedText.
  now rewrite trim_idempotent, jsstring_eqb_refl, H.
Qed.

Lemma orUndefined_shape (s : jsstring) :
  unset (orUndefined (trim s)) || filled (orUndefined (trim s)) = true.
Proof.
  unfold orUndefined. destruct (truthy (trim s)) eqn:E; [|reflexivity].
  rewrite (truthy_filled s E). apply orb_true_r.
Qed.

Lemma postRow_shaped (now : DateTime) (userId : Id) (loc : LocationRef)
  (channel : Id) (postType : CreatePost.FormType)
  (formData : CreatePost.FormData) (st : Store) :
  truthy (trim (CreatePost.title formData)) = true ->
  (CreatePost.isText postType = true ->
   truthy (trim (CreatePost.content formData)) = true) ->
  (CreatePost.isLink postType = true ->
   truthy (trim (CreatePost.linkUrl formData)) = true) ->
  shaped (postRow now userId loc channel postType formData st) = true
  /\ fresh (postRow now userId loc channel postType formData st) = true.
Proof.
  intros Ht Hc Hl. split; [|reflexivity].
  unfold shaped, postRow. cbn [Post.title Post.type Post.content Post.linkUrl
                                 Post.linkTitle Post.linkDescription].
  assert (trimmedText (trim (CreatePost.title formData)) = true) as ->
    by (apply (truthy_filled _ Ht)).
  destruct postType; unfold CreatePost.isLink, CreatePost.isText in *;
    cbn [negb andb].
  - rewrite (truthy_filled _ (Hc eq_refl)). reflexivity.
  - rewrite (truthy_filled _ (Hl eq_refl)), !orUndefined_shape. reflexivity.
Qed.

(** The posts after one submission: as before, or one more, well shaped and
    fresh. *)
Lemma perform_posts (a : Action) (st : Store) :
  posts (perform a st) = posts st
  \/ exists row,
       shaped row = true /\ fresh row = true
       /\ posts (perform a st) = posts st ++ [row].
Proof.
  destruct a as [now f|now u cs loc f|now u cs ch loc sel ty f|s]; simpl.
  - destruct (CreateCity_cases now f st) as [[e E]|(_ & _ & _ & E)];
      rewrite E; now left.
  - destruct (CreateChannel_cases now u cs loc f st)
      as [[e E]|(l & _ & _ & _ & E)]; rewrite E; now left.
  - destruct (CreatePost_cases now u cs ch loc sel ty f st)
      as [[e E]|(l & c & path & _ & _ & Ht & Hc & Hl & E)];
      rewrite E; [now left|right].
    eexists. split; [|split; [|reflexivity]];
      now apply postRow_shaped.
  - destruct (submit_cases s st) as [E|(row & _ & E)]; rewrite E; now left.
Qed.

Lemma perform_comments (a : Action) (st : Store) :
  comments (perform a st) = comments st
  \/ exists row, comments (perform a st) = comments st ++ [row].
Proof.
  destruct a as [now f|now u cs loc f|now u cs ch loc sel ty f|s]; simpl.
  - destruct (CreateCity_cases now f st) as [[e E]|(_ & _ & _ & E)];
      rewrite E; now left.
  - destruct (CreateChannel_cases now u cs loc f st)
      as [[e E]|(l & _ & _ & _ & E)]; rewrite E; now left.
  - destruct (CreatePost_cases now u cs ch loc sel ty f st)
      as [[e E]|(l & c & path & _ & _ & _ & _ & _ & E)]; rewrite E; now left.
  - destruct (submit_cases s st) as [E|(row & _ & E)]; rewrite E;
      [now left|right; now exists row].
Qed.

Lemma perform_others (a : Action) (st : Store) :
  users (perform a st) = users st
  /\ votes (perform a st) = votes st
  /\ memberships (perform a st) = memberships st.
Proof.
  destruct a as [now f|now u cs loc f|now u cs ch loc sel ty f|s]; simpl.
  - destruct (CreateCity_cases now f st) as [[e E]|(_ & _ & _ & E)];
      rewrite E; now repeat split.
  - destruct (CreateChannel_cases now u cs loc f st)
      as [[e E]|(l & _ & _ & _ & E)]; rewrite E; now repeat split.
  - destruct (CreatePost_cases now u cs ch loc sel ty f st)
      as [[e E]|(l & c & path & _ & _ & _ & _ & _ & E)]; rewrite E;
      now repeat split.
  - destruct (submit_cases s st) as [E|(row & _ & E)]; rewrite E;
      now repeat split.
Qed.

Lemma NoDup_snoc (A : Type) (l : list A) (x : A) :
  NoDup l -> ~ In x l -> NoDup (l ++ [x]).
Proof.
  intros Hl Hx. apply NoDup_app; [exact Hl|repeat constructor; auto|].
  intros y Hy [<-|[]]. contradiction.
Qed.

Lemma performAll_ind (P : Store -> Prop) :
  (forall a st, P st -> P (perform a st)) ->
  forall l st, P st -> P (performAll l st).
Proof.
  intros Hstep l. induction l as [|a l IH]; intros st H; [exact H|].
  simpl. apply IH. now apply Hstep.
Qed.

Lemma performAll_city_slugs (l : list Action) (st : Store) :
  uniqueCitySlugs st -> uniqueCitySlugs (performAll l st).
Proof.
  apply performAll_ind. clear. intros a st H. unfold uniqueCitySlugs in *.
  destruct (perform_locations a st) as [E|(row & Hnew & E)]; rewrite E;
    [exact H|].
  rewrite map_app. now apply NoDup_snoc.
Qed.

Lemma performAll_channel_slugs (l : list Action) (st : Store) :
  uniqueChannelSlugs st -> uniqueChannelSlugs (performAll l st).
Proof.
  apply performAll_ind. clear. intros a st H. unfold uniqueChannelSlugs in *.
  destruct (perform_channels a st) as [E|(row & Hnew & _ & E)]; rewrite E;
    [exact H|].
  rewrite map_app. now apply NoDup_snoc.
Qed.

Lemma twice_not_NoDup (A : Type) (l : list A) (x : A) :
  ~ NoDup (l ++ [x; x]).
Proof.
  intros H. apply NoDup_app_remove_l in H.
  inversion H as [|? ? Hin _]. apply Hin. now left.
Qed.

(** The city handler is its pre-check followed, when that passes, by its
    create, both on the same store. *)
Lemma CreateCity_parts (now : DateTime) (formData : CreateCity.FormData)
  (st : Store) :
  CreateCity.handleSubmit now formData st
  = match CreateCity.precheck formData st with
    | Some e => (st, Rejected e)
    | None => CreateCity.create now formData st
    end.
Proof.
  unfold CreateCity.handleSubmit, CreateCity.precheck, CreateCity.create.
  destruct (truthy (trim (CreateCity.name formData))); simpl;
    [|reflexivity].
  destruct (truthy (trim (CreateCity.state formData))); simpl;
    [|reflexivity].
  now destruct (0 <? length _)%nat.
Qed.

Lemma CreateChannel_parts (now : DateTime) (userId : Id) (citySlug : jsstring)
  (loc : LocationRef) (formData : CreateChannel.FormData) (st : Store) :
  CreateChannel.handleSubmit now userId citySlug (Some loc) formData st
  = match CreateChannel.precheck (Some loc) formData st with
    | Some e => (st, Rejected e)
    | None => CreateChannel.create now userId citySlug loc formData st
    end.
Proof.
  unfold CreateChannel.handleSubmit, CreateChannel.precheck,
    CreateChannel.create.
  destruct (truthy (trim (CreateChannel.name formData))); simpl;
    [|reflexivity].
  now destruct (0 <? length _)%nat.
Qed.

(** City slugs, in series and overlapping.  When submissions run one after
    another, each handler from its pre-check to its create with no other
    write in between, city slugs that were pairwise distinct stay pairwise
    distinct.  But the pre-check and the create are two separate awaited
    calls and nothing else guards the slug: when two submissions whose
    names give the same slug both pass the pre-check on the same store
    before either create is applied, both cities are created, and two
    cities share the slug. *)
Theorem city_slugs_serial_and_overlapped :
  (forall (l : list Action) (st : Store),
      uniqueCitySlugs st -> uniqueCitySlugs (performAll l st))
  /\ (forall now formData st,
        CreateCity.handleSubmit now formData st
        = match CreateCity.precheck formData st with
          | Some e => (st, Rejected e)
          | None => CreateCity.create now formData st
          end)
  /\ (forall now1 form1 now2 form2 st,
        CreateCity.precheck form1 st = None ->
        CreateCity.precheck form2 st = None ->
        generateSlug (CreateCity.name form1)
        = generateSlug (CreateCity.name form2) ->
        length (locations (CreateCity.overlapped now1 form1 now2 form2 st))
        = (length (locations st) + 2)%nat
        /\ ~ uniqueCitySlugs (CreateCity.overlapped now1 form1 now2 form2 st)).
Proof.
  split; [exact performAll_city_slugs|]. split; [exact CreateCity_parts|].
  intros now1 form1 now2 form2 st H1 H2 Hslug.
  unfold CreateCity.overlapped. rewrite H1, H2.
  unfold CreateCity.create, uniqueCitySlugs.
  cbn [fst locations setLocations nextId].
  split; [rewrite !length_app; simpl; lia|].
  rewrite <- app_assoc, map_app. cbn [app map Location.slug].
  rewrite Hslug. apply twice_not_NoDup.
Qed.

Lemma city_slugs_serial_and_overlapped_witness :
  uniqueCitySlugs (performAll Scenario.session emptyStore)
  /\ map Location.slug
       (locations (CreateCity.overlapped 10%Z Scenario.annArbor 11%Z
                     Scenario.annArbor emptyStore))
     = [lit "ann-arbor"; lit "ann-arbor"]
  /\ ~ uniqueCitySlugs
         (CreateCity.overlapped 10%Z Scenario.annArbor 11%Z
            Scenario.annArbor emptyStore).
Proof.
  destruct city_slugs_serial_and_overlapped as (Hserial & _ & Hrace).
  split; [apply Hserial; constructor|]. split; [reflexivity|].
  apply (Hrace 10%Z Scenario.annArbor 11%Z Scenario.annArbor emptyStore);
    reflexivity.
Defined.

(** Channel slugs, in series and overlapping.  When submissions run one
    after another, no two channels of one city get the same slug.  When two
    submissions on pages of the same city, whose names give the same slug,
    both pass the pre-check on the same store before either create is
    applied, both channels are created, and two channels of the city share
    the slug. *)
Theorem channel_slugs_serial_and_overlapped :
  (forall (l : list Action) (st : Store),
      uniqueChannelSlugs st -> uniqueChannelSlugs (performAll l st))
  /\ (forall now userId citySlug loc formData st,
        CreateChannel.handleSubmit now userId citySlug (Some loc) formData st
        = match CreateChannel.precheck (Some loc) formData st with
          | Some e => (st, Rejected e)
          | None => CreateChannel.create now userId citySlug loc formData st
          end)
  /\ (forall now1 user1 form1 now2 user2 form2 citySlug loc st,
        CreateChannel.precheck (Some loc) form1 st = None ->
        CreateChannel.precheck (Some loc) form2 st = None ->
        generateSlug (CreateChannel.name form1)
        = generateSlug (CreateChannel.name form2) ->
        length (channels (CreateChannel.overlapped now1 user1 form1 now2 user2
                            form2 citySlug loc st))
        = (length (channels st) + 2)%nat
        /\ ~ uniqueChannelSlugs
               (CreateChannel.overlapped now1 user1 form1 now2 user2 form2
                  citySlug loc st)).
Proof.
  split; [exact performAll_channel_slugs|].
  split; [exact CreateChannel_parts|].
  intros now1 user1 form1 now2 user2 form2 citySlug loc st H1 H2 Hslug.
  unfold CreateChannel.overlapped. rewrite H1, H2.
  unfold CreateChannel.create, uniqueChannelSlugs.
  cbn [fst channels setChannels nextId].
  split; [rewrite !length_app; simpl; lia|].
  rewrite <- app_assoc, map_app.
  cbn [app map Channel.slug Channel.locationId].
  rewrite Hslug. apply twice_not_NoDup.
Qed.

Lemma channel_slugs_serial_and_overlapped_witness :
  uniqueChannelSlugs (performAll Scenario.session emptyStore)
  /\ map Channel.slug
       (channels (CreateChannel.overlapped 30%Z Scenario.alice
                    Scenario.politics1 31%Z Scenario.alice Scenario.politics2
                    (lit "ann-arbor") Scenario.annArborRef Scenario.cities))
     = [lit "politics"; lit "politics"]
  /\ ~ uniqueChannelSlugs
         (CreateChannel.overlapped 30%Z Scenario.alice Scenario.politics1
            31%Z Scenario.alice Scenario.politics2 (lit "ann-arbor")
            Scenario.annArborRef Scenario.cities).
Proof.
  destruct channel_slugs_serial_and_overlapped as (Hserial & _ & Hrace).
  split; [apply Hserial; constructor|]. split; [reflexivity|].
  apply (Hrace 30%Z Scenario.alice Scenario.politics1 31%Z Scenario.alice
           Scenario.politics2 (lit "ann-arbor") Scenario.annArborRef
           Scenario.cities); reflexivity.
Defined.

Lemma performAll_added (l : list Action) (st : Store) :
  exists added,
    posts (performAll l st) = posts st ++ added
    /\ Forall (fun p => shaped p = true /\ fresh p = true) added.
Proof.
  revert st. induction l as [|a l IH]; intros st.
  - exists []. split; [now rewrite app_nil_r|constructor].
  - simpl. destruct (IH (perform a st)) as (added & E & Hadded).
    destruct (perform_posts a st) as [Ep|(row & Hs & Hf & Ep)];
      rewrite Ep in E.
    + now exists added.
    + exists (row :: added). split.
      * now rewrite E, <- app_assoc.
      * constructor; [now split|exact Hadded].
Qed.

(** Whatever the store held before, a run of submissions leaves the old
    posts in place and every post it adds has a title that is trimmed and
    not empty and the fields of its type, each trimmed and not empty (text
    posts a content and no link field; link posts a link address, no
    content, and a link title and description that are either unset or
    filled), and is stored active with its four counters at 0.  So a store
    whose posts all have that shape keeps it. *)
Theorem posts_stay_shaped (l : list Action) (st : Store) :
  (exists added,
      posts (performAll l st) = posts st ++ added
      /\ Forall (fun p => shaped p = true /\ fresh p = true) added)
  /\ (Forall (fun p => shaped p = true) (posts st) ->
      Forall (fun p => shaped p = true) (posts (performAll l st))).
Proof.
  destruct (performAll_added l st) as (added & E & Hadded).
  split; [now exists added|].
  intros Hold. rewrite E. apply Forall_app. split; [exact Hold|].
  eapply Forall_impl; [|exact Hadded]. now intros p [Hs _].
Qed.

Lemma extends_refl (A : Type) (l : list A) : extends l l.
Proof. exists []. now rewrite app_nil_r. Qed.

Lemma extends_step (A : Type) (l l' l'' : list A) :
  extends l l' -> (l'' = l' \/ exists x, l'' = l' ++ [x]) -> extends l l''.
Proof.
  intros [more ->] [->|[x ->]]; [now exists more|].
  exists (more ++ [x]). now rewrite app_assoc.
Qed.

Lemma performAll_places (l : list Action) (st : Store) :
  extends (locations st) (locations (performAll l st))
  /\ extends (channels st) (channels (performAll l st)).
Proof.
  apply (@performAll_ind
           (fun s => extends (locations st) (locations s)
                     /\ extends (channels st) (channels s))).
  - intros a s (Hl & Hc). split.
    + apply (extends_step Hl).
      destruct (perform_locations a s) as [E|(row & _ & E)]; eauto.
    + apply (extends_step Hc).
      destruct (perform_channels a s) as [E|(row & _ & _ & E)]; eauto.
  - split; apply extends_refl.
Qed.

(** Submissions only ever add rows: after any run, the cities, channels,
    posts and comments that were there are still there, unchanged and in
    the same order, and the profiles, votes and memberships are the same.
    No form edits or deletes a row. *)
Theorem submissions_only_add (l : list Action) (st : Store) :
  extends (locations st) (locations (performAll l st))
  /\ extends (channels st) (channels (performAll l st))
  /\ extends (posts st) (posts (performAll l st))
  /\ extends (comments st) (comments (performAll l st))
  /\ users (performAll l st) = users st
  /\ votes (performAll l st) = votes st
  /\ memberships (performAll l st) = memberships st.
Proof.
  apply (@performAll_ind
           (fun s => extends (locations st) (locations s)
                     /\ extends (channels st) (channels s)
                     /\ extends (posts st) (posts s)
                     /\ extends (comments st) (comments s)
                     /\ users s = users st
                     /\ votes s = votes st
                     /\ memberships s = memberships st)).
  - intros a s (Hl & Hc & Hp & Hm & Hu & Hv & Hs).
    destruct (perform_others a s) as (Eu & Ev & Es).
    rewrite Eu, Ev, Es. repeat split; auto.
    + apply (extends_step Hl).
      destruct (perform_locations a s) as [E|(row & _ & E)]; eauto.
    + apply (extends_step Hc).
      destruct (perform_channels a s) as [E|(row & _ & _ & E)]; eauto.
    + apply (extends_step Hp).
      destruct (perform_posts a s) as [E|(row & _ & _ & E)]; eauto.
    + apply (extends_step Hm).
      destruct (perform_comments a s) as [E|(row & E)]; eauto.
  - repeat split; auto using extends_refl.
Qed.

Lemma filter_extends (A : Type) (f : A -> bool) (l l' : list A) (x : A)
  (r : list A) :
  extends l l' -> filter f l = x :: r -> exists r', filter f l' = x :: r'.
Proof.
  intros [more ->] E. rewrite filter_app, E. simpl. eauto.
Qed.

(** A channel page that loads keeps loading the same city and the same
    channel data after any run of submissions; in particular the numbers of
    posts and of members it shows never change, whatever is posted. *)
Theorem channel_page_never_changes (l : list Action) (st : Store)
  (citySlug channelSlug : jsstring) (page : LocationRef * ChannelView.ChannelInfo) :
  ChannelView.fetchLocationAndChannel citySlug channelSlug st = Found page ->
  ChannelView.fetchLocationAndChannel citySlug channelSlug (performAll l st)
  = Found page.
Proof.
  destruct (performAll_places l st) as (Hl & Hc).
  unfold ChannelView.fetchLocationAndChannel, locationsBySlug.
  destruct (filter _ (locations st)) as [|loc r] eqn:El; [discriminate|].
  destruct (filter_extends _ Hl El) as [r' ->].
  destruct (filter _ (channels st)) as [|ch rc] eqn:Ec; [discriminate|].
  destruct (filter_extends _ Hc Ec) as [rc' ->].
  auto.
Qed.

(** ** From a form to the page it leads to *)


Lemma load_city (slug : jsstring) (st : Store) :
  slug <> [] ->
  CityView.load (Some slug) st
  = Some (CityView.fetchLocationAndChannels slug st).
Proof. destruct slug; [congruence|reflexivity]. Qed.






Lemma postSummary_same (channelId : option Id) (st st' : Store) (p : Post.t) :
  users st' = users st -> channels st' = channels st ->
  comments st' = comments st ->
  PostList.postSummary channelId st' p = PostList.postSummary channelId st p.
Proof.
  intros Hu Hc Hm. unfold PostList.postSummary, PostList.authorOf.
  now rewrite Hu, Hc, Hm.
Qed.

Lemma fetchPosts_snoc (locationId channelId : option Id) (st st' : Store)
  (row : Post.t) :
  users st' = users st -> channels st' = channels st ->
  comments st' = comments st -> posts st' = posts st ++ [row] ->
  PostList.postFilter locationId channelId row = true ->
  Permutation (PostList.fetchPosts locationId channelId st')
    (PostList.postSummary channelId st' row
     :: PostList.fetchPosts locationId channelId st).
Proof.
  intros Hu Hc Hm Hp Hf. unfold PostList.fetchPosts.
  rewrite !sort_perm. rewrite Hp, filter_app, map_app. simpl. rewrite Hf.
  simpl. rewrite <- Permutation_cons_append. constructor.
  erewrite map_ext; [reflexivity|].
  intros p. now apply postSummary_same.
Qed.

(** A post form that navigates has stored the post, and from then on the
    feed of its channel and the feed of its city list it, beside every post
    they listed before. *)
Theorem created_post_is_listed (now : DateTime) (userId : Id)
  (citySlug : jsstring) (channelSlug : option jsstring) (loc : LocationRef)
  (channel : Id) (postType : CreatePost.FormType)
  (formData : CreatePost.FormData) (st st' : Store) (path : jsstring) :
  CreatePost.handleSubmit now userId citySlug channelSlug (Some loc)
    (Some channel) postType formData st = (st', Navigated path) ->
  let row := postRow now userId loc channel postType formData st in
  posts st' = posts st ++ [row]
  /\ Permutation (PostList.fetchPosts None (Some channel) st')
       (PostList.postSummary (Some channel) st' row
        :: PostList.fetchPosts None (Some channel) st)
  /\ Permutation (PostList.fetchPosts (Some (ref_id loc)) None st')
       (PostList.postSummary None st' row
        :: PostList.fetchPosts (Some (ref_id loc)) None st).
Proof.
  destruct (CreatePost_cases now userId citySlug channelSlug (Some loc)
              (Some channel) postType formData st)
    as [[e E]|(loc' & ch' & path' & El & Ec & _ & _ & _ & E)];
    rewrite E; [discriminate|].
  injection El as <-. injection Ec as <-.
  intros H. injection H as <- <-. cbv zeta.
  split; [reflexivity|].
  split; apply fetchPosts_snoc; try reflexivity;
    unfold PostList.postFilter, postRow; simpl; now rewrite N.eqb_refl.
Qed.

Lemma created_post_is_listed_witness :
  Permutation
    (PostList.fetchPosts None (Some 3%N) Scenario.withPost)
    (PostList.postSummary (Some 3%N) Scenario.withPost Scenario.welcomePost
     :: PostList.fetchPosts None (Some 3%N) Scenario.withPolitics).
Proof.
  apply (@created_post_is_listed 50%Z Scenario.alice (lit "ann-arbor")
           (Some (lit "politics")) Scenario.annArborRef 3%N
           CreatePost.TextForm Scenario.welcome Scenario.withPolitics
           Scenario.withPost (lit "/city/ann-arbor/channel/politics")
           eq_refl).
Defined.

Lemma selectChannel_option (channelSlug : option jsstring)
  (page : CreatePost.Page) (pick : option nat) (channel : Id) :
  (forall id, CreatePost.page_selected page = Some id ->
     exists o, In o (CreatePost.page_channels page)
               /\ CreatePost.option_id o = id
               /\ forall c0 s0, channelSlug = Some (c0 :: s0) ->
                    CreatePost.option_slug o = c0 :: s0) ->
  CreatePost.selectChannel channelSlug page pick = Some channel ->
  exists o, In o (CreatePost.page_channels page)
            /\ CreatePost.option_id o = channel
            /\ forall c0 s0, channelSlug = Some (c0 :: s0) ->
                 CreatePost.option_slug o = c0 :: s0.
Proof.
  intros Hsel. unfold CreatePost.selectChannel.
  destruct pick as [index|]; [|apply Hsel].
  destruct (CreatePost.page_channels page) as [|o0 os] eqn:Eo; [apply Hsel|].
  destruct channelSlug as [[|c s]|]; [|apply Hsel|];
    (destruct (index <=? _)%nat; [|apply Hsel]);
    unfold CreatePost.optionValue; (destruct index as [|i]; [discriminate|]);
    rewrite Eo; (destruct (nth_error (o0 :: os) i) as [o|] eqn:En;
                 [|discriminate]);
    intros H; injection H as <-; exists o;
    (split; [eapply nth_error_In; eauto|split; [reflexivity|discriminate]]).
Qed.

(** Opening the post page, choosing a channel and submitting: when the form
    navigates, the post it stored belongs to the city of the page and to a
    channel that is an active channel of that same city; when the page was
    opened from a channel, it is the channel of that slug, whatever the
    selector is tried with. *)
Theorem post_lands_in_city_channel (now : DateTime) (userId : Id)
  (citySlug : jsstring) (channelSlug : option jsstring) (pick : option nat)
  (postType : CreatePost.FormType) (formData : CreatePost.FormData)
  (st st' : Store) (path : jsstring) :
  CreatePost.openAndSubmit now userId citySlug channelSlug pick postType
    formData st = (st', Navigated path) ->
  exists row city channel,
    posts st' = posts st ++ [row]
    /\ In city (locations st) /\ Location.slug city = citySlug
    /\ Post.locationId row = Location.id city
    /\ In channel (channels st)
    /\ Post.channelId row = Channel.id channel
    /\ Channel.locationId channel = Location.id city
    /\ isTrue (Channel.isActive channel) = true
    /\ forall c0 s0, channelSlug = Some (c0 :: s0) ->
         Channel.slug channel = c0 :: s0.
Proof.
  unfold CreatePost.openAndSubmit, CreatePost.fetchLocationAndChannels.
  destruct (locationsBySlug citySlug st) as [|city rest] eqn:Ecity.
  - destruct (CreatePost_cases now userId citySlug channelSlug None None
                postType formData st)
      as [[e E]|(l & c & p & El & _)]; [rewrite E|]; discriminate.
  - set (page := CreatePost.mkPage _ _ _).
    destruct (CreatePost_cases now userId citySlug channelSlug
                (Some (CreatePost.page_location page))
                (CreatePost.selectChannel channelSlug page pick)
                postType formData st)
      as [[e E]|(l & c & p & El & Ec & _ & _ & _ & E)];
      rewrite E; [discriminate|].
    injection El as <-. intros H. injection H as <- _.
    destruct (@selectChannel_option channelSlug page pick c)
      as (o & Ho & Hid & Hslug); [|exact Ec|].
    { subst page. cbn [CreatePost.page_selected CreatePost.page_channels].
      intros id. destruct channelSlug as [[|c0 s0]|]; try discriminate.
      destruct (find _ _) as [o|] eqn:Ef; [|discriminate].
      intros H. injection H as <-. exists o.
      apply find_some in Ef. destruct Ef as [Hin Heq].
      apply jsstring_eqb_eq in Heq.
      split; [exact Hin|]. split; [reflexivity|].
      intros c1 s1 H. injection H as Hc Hs. rewrite <- Hc, <- Hs.
      exact Heq. }
    subst page. cbn [CreatePost.page_channels] in Ho.
    apply in_map_iff in Ho. destruct Ho as (channel & <- & Hin).
    apply filter_In in Hin. destruct Hin as [Hin Hf].
    apply andb_true_iff in Hf. destruct Hf as [Hl Ha].
    apply N.eqb_eq in Hl.
    assert (In city (locationsBySlug citySlug st)) as Hc
      by (rewrite Ecity; now left).
    apply filter_In in Hc. destruct Hc as [Hc Hs].
    apply andb_true_iff in Hs. destruct Hs as [Hs _].
    apply jsstring_eqb_eq in Hs.
    exists (postRow now userId
              (mkLocationRef (Location.id city) (Location.name city)
                 (Location.slug city))
              c postType formData st), city, channel.
    cbn [CreatePost.option_id CreatePost.option_slug] in Hid, Hslug. subst c.
    repeat split; auto.
Qed.

Lemma post_lands_in_city_channel_witness :
  exists row city channel,
    posts (fst (CreatePost.openAndSubmit 50%Z Scenario.alice (lit "ann-arbor")
                  None (Some 1%nat) CreatePost.TextForm Scenario.welcome
                  Scenario.withPolitics))
    = posts Scenario.withPolitics ++ [row]
    /\ In channel (channels Scenario.withPolitics)
    /\ Post.channelId row = Channel.id channel
    /\ Channel.locationId channel = Location.id city.
Proof.
  destruct (@post_lands_in_city_channel 50%Z Scenario.alice (lit "ann-arbor")
              None (Some 1%nat) CreatePost.TextForm Scenario.welcome
              Scenario.withPolitics
              (fst (CreatePost.openAndSubmit 50%Z Scenario.alice
                      (lit "ann-arbor") None (Some 1%nat) CreatePost.TextForm
                      Scenario.welcome Scenario.withPolitics))
              (lit "/city/ann-arbor") eq_refl)
    as (row & city & channel & E & _ & _ & _ & Hin & Hid & Hloc & _).
  exists row, city, channel. auto.
Defined.

(** ** Cities that are not active *)

(** When the only cities with a slug (a slug that is not empty) are not
    active, the effect of the city page for that slug runs its loader, which
    fails with "City not found"; and yet the city form refuses every name of
    that slug: the slug can be neither visited nor taken again. *)
Theorem inactive_city_blocks_slug (st : Store) (slug : jsstring)
  (city : Location.t) :
  slug <> [] ->
  In city (locations st) -> Location.slug city = slug ->
  (forall l, In l (locations st) -> Location.slug l = slug ->
             isTrue (Location.isActive l) = false) ->
  CityView.load (Some slug) st = Some (Failed (lit "City not found"))
  /\ forall now formData,
       generateSlug (CreateCity.name formData) = slug ->
       fst (CreateCity.handleSubmit now formData st) = st
       /\ (truthy (trim (CreateCity.name formData)) = true ->
           truthy (trim (CreateCity.state formData)) = true ->
           snd (CreateCity.handleSubmit now formData st)
           = Rejected DuplicateSlug).
Proof.
  intros Hne Hin Hslug Hoff. split.
  - rewrite (load_city _ Hne).
    unfold CityView.fetchLocationAndChannels, locationsBySlug.
    rewrite filter_none; [reflexivity|].
    intros l Hl. destruct (jsstring_eqb (Location.slug l) slug) eqn:E;
      [|reflexivity].
    apply jsstring_eqb_eq in E. simpl. now apply Hoff.
  - intros now formData Hgen.
    rewrite CreateCity_parts. unfold CreateCity.precheck.
    destruct (truthy (trim (CreateCity.name formData))); simpl;
      [|split; [reflexivity|discriminate]].
    destruct (truthy (trim (CreateCity.state formData))); simpl;
      [|split; [reflexivity|discriminate]].
    rewrite (filter_found _ city); [split; reflexivity|exact Hin|].
    apply jsstring_eqb_eq. congruence.
Qed.

Lemma inactive_city_blocks_slug_witness :
  CityView.load (Some (lit "ann-arbor")) Scenario.closedCity
  = Some (Failed (lit "City not found"))
  /\ CreateCity.handleSubmit 40%Z Scenario.annArbor Scenario.closedCity
     = (Scenario.closedCity, Rejected DuplicateSlug).
Proof.
  destruct (@inactive_city_blocks_slug Scenario.closedCity (lit "ann-arbor")
              (Location.mk 1%N (lit "Ann Arbor") (lit "ann-arbor") None
                 (Some (lit "Michigan")) (Some (lit "United States"))
                 (Some false) 10%Z))
    as [Hpage Hform].
  - discriminate.
  - left. reflexivity.
  - reflexivity.
  - intros l [<-|[]] _. reflexivity.
  - split; [exact Hpage|].
    destruct (Hform 40%Z Scenario.annArbor eq_refl) as [H1 H2].
    rewrite (surjective_pairing (CreateCity.handleSubmit _ _ _)).
    now rewrite H1, H2.
Defined.

(** ** Expanding and collapsing comments *)

(** Toggling the comments of a post twice, whatever the store holds at
    either moment, leaves the same posts expanded as before, leaves the
    comment lists and comment boxes of all other posts alone, and leaves
    the post with a loaded list. *)
Theorem toggleComments_twice (postId : Id) (st1 st2 : Store)
  (panel : PostList.Panel) :
  let twice := PostList.toggleComments postId st2
                 (PostList.toggleComments postId st1 panel) in
  (forall k, PostList.expandedPosts twice k = PostList.expandedPosts panel k)
  /\ PostList.ui_comments (PostList.panel_ui twice) postId <> None
  /\ PostList.ui_newComments (PostList.panel_ui twice)
     = PostList.ui_newComments (PostList.panel_ui panel)
  /\ forall other, other <> postId ->
       PostList.ui_comments (PostList.panel_ui twice) other
       = PostList.ui_comments (PostList.panel_ui panel) other.
Proof.
  unfold PostList.toggleComments, PostList.setMember.
  destruct (PostList.expandedPosts panel postId) eqn:Ex;
    cbn [PostList.expandedPosts PostList.panel_ui]; rewrite N.eqb_refl;
    cbn [PostList.expandedPosts PostList.panel_ui];
    (split; [intros k; destruct (N.eqb_spec k postId); congruence|]);
    destruct (PostList.ui_comments (PostList.panel_ui panel) postId) eqn:Ec;
    unfold PostList.fetchComments, PostList.assign;
    cbn [PostList.ui_comments PostList.ui_newComments];
    rewrite ?Ec, ?N.eqb_refl;
    cbn [PostList.ui_comments PostList.ui_newComments];
    rewrite ?N.eqb_refl;
    (split; [congruence|]); (split; [reflexivity|]);
    intros other Hne; apply N.eqb_neq in Hne; now rewrite ?Hne.
Qed.

(** Once a post's comments are loaded (be it the empty list), toggling the
    post never loads them again: the list shown stays the one loaded
    first, whatever comments the store has gained since. *)
Theorem toggleComments_keeps_loaded (postId : Id) (st : Store)
  (panel : PostList.Panel) (loaded : list PostList.CommentView.t) :
  PostList.ui_comments (PostList.panel_ui panel) postId = Some loaded ->
  PostList.panel_ui (PostList.toggleComments postId st panel)
  = PostList.panel_ui panel.
Proof.
  intros H. unfold PostList.toggleComments.
  destruct (PostList.expandedPosts panel postId); [reflexivity|].
  cbn [PostList.panel_ui]. now rewrite H.
Qed.

Lemma toggleComments_keeps_loaded_witness :
  PostList.ui_comments
    (PostList.panel_ui
       (PostList.toggleComments 4%N Scenario.withComments
          (PostList.toggleComments 4%N Scenario.withPost
             (PostList.toggleComments 4%N Scenario.withPost
                Scenario.closedPanel)))) 4%N
  = Some [].
Proof.
  rewrite (@toggleComments_keeps_loaded 4%N Scenario.withComments
             (PostList.toggleComments 4%N Scenario.withPost
                (PostList.toggleComments 4%N Scenario.withPost
                   Scenario.closedPanel)) []);
    reflexivity.
Defined.

(** ** Authors and comment counts in the feed *)

Lemma orUnknown_filled (s : option jsstring) : PostList.orUnknown s <> [].
Proof. destruct s as [[|c r]|]; discriminate. Qed.

Lemma authorOf_named (st : Store) (authorId : Id) :
  authorNamed st (PostList.authorOf st authorId)
  /\ PostList.author_id (PostList.authorOf st authorId) = authorId.
Proof.
  split; [|reflexivity].
  unfold authorNamed, PostList.authorOf.
  cbn [PostList.author_username PostList.author_id].
  destruct (find _ (users st)) as [profile|]; [|reflexivity].
  simpl. now destruct (UserProfile.username profile).
Qed.

(** Every entry of a feed and of a comment list names the author of its
    post or comment: the name is the user name of that author's profile,
    or "Unknown" when the profile is missing or its user name is empty;
    the name shown is never empty. *)
Theorem author_is_named (st : Store) :
  (forall locationId channelId v,
      In v (PostList.fetchPosts locationId channelId st) ->
      authorNamed st (PostList.PostView.author v)
      /\ PostList.author_username (PostList.PostView.author v) <> []
      /\ exists post, In post (posts st)
                      /\ Post.id post = PostList.PostView.id v
                      /\ Post.authorId post
                         = PostList.author_id (PostList.PostView.author v))
  /\ (forall postId v,
      In v (PostList.commentData postId st) ->
      authorNamed st (PostList.CommentView.author v)
      /\ PostList.author_username (PostList.CommentView.author v) <> []
      /\ exists comment, In comment (comments st)
                         /\ Comment.id comment = PostList.CommentView.id v
                         /\ Comment.authorId comment
                            = PostList.author_id
                                (PostList.CommentView.author v)).
Proof.
  split.
  - intros locationId channelId v Hin.
    unfold PostList.fetchPosts in Hin. apply sort_In in Hin.
    apply in_map_iff in Hin. destruct Hin as (p & <- & Hp).
    apply filter_In in Hp. destruct Hp as [Hp _].
    cbn [PostList.postSummary PostList.PostView.author PostList.PostView.id].
    split; [apply authorOf_named|]. split; [apply orUnknown_filled|].
    exists p. repeat split; auto.
  - intros postId v Hin.
    unfold PostList.commentData in Hin. apply sort_In in Hin.
    apply in_map_iff in Hin. destruct Hin as (c & <- & Hc).
    apply filter_In in Hc. destruct Hc as [Hc _].
    cbn [PostList.commentSummary PostList.CommentView.author
         PostList.CommentView.id].
    split; [apply authorOf_named|]. split; [apply orUnknown_filled|].
    exists c. repeat split; auto.
Qed.

Lemma author_is_named_witness :
  map (fun v => PostList.author_username (PostList.PostView.author v))
      (PostList.fetchPosts None (Some 3%N) Scenario.withProfile)
  = [lit "alice"]
  /\ authorNamed Scenario.withProfile
       (PostList.PostView.author
          (PostList.postSummary (Some 3%N) Scenario.withProfile
             Scenario.welcomePost))
  /\ map (fun v => PostList.author_username (PostList.PostView.author v))
         (PostList.fetchPosts None (Some 3%N) Scenario.withPost)
     = [lit "Unknown"].
Proof.
  split; [reflexivity|]. split; [|reflexivity].
  destruct (author_is_named Scenario.withProfile) as [H _].
  apply (H None (Some 3%N)
           (PostList.postSummary (Some 3%N) Scenario.withProfile
              Scenario.welcomePost)).
  left. reflexivity.
Defined.

(** After a signed-in user's comment with text, the comment count the feed
    computes for the commented post is one more than before, and the count
    of every other post is the same. *)
Theorem comment_raises_count (createdAt updatedAt : DateTime)
  (userId postId : Id) (text : jsstring) (st : Store) (ui : PostList.UI)
  (channelId : option Id) (post : Post.t) :
  PostList.ui_newComments ui postId = Some text ->
  truthy (trim text) = true ->
  let st' := fst (PostList.handleCommentSubmit createdAt updatedAt
                    (Some userId) postId st ui) in
  PostList.PostView.commentCount (PostList.postSummary channelId st' post)
  = (PostList.PostView.commentCount (PostList.postSummary channelId st post)
     + (if (Post.id post =? postId)%N then 1 else 0))%Z.
Proof.
  intros Htext Htruthy st'. subst st'.
  unfold PostList.handleCommentSubmit. rewrite Htext, Htruthy.
  cbn [fst PostList.postSummary PostList.PostView.commentCount comments
       setComments].
  rewrite filter_app, length_app, Nat2Z.inj_add. f_equal.
  cbn [filter Comment.postId]. rewrite N.eqb_sym.
  now destruct (Post.id post =? postId)%N.
Qed.

Lemma comment_raises_count_witness :
  PostList.PostView.commentCount
    (PostList.postSummary None
       (fst (PostList.handleCommentSubmit 60%Z 60%Z (Some Scenario.alice) 4%N
               Scenario.withPost
               (PostList.mkUI (fun _ => None) (fun _ => Some (lit "hi")))))
       Scenario.welcomePost)
  = (PostList.PostView.commentCount
       (PostList.postSummary None Scenario.withPost Scenario.welcomePost)
     + 1)%Z.
Proof.
  apply (@comment_raises_count 60%Z 60%Z Scenario.alice 4%N (lit "hi")
           Scenario.withPost
           (PostList.mkUI (fun _ => None) (fun _ => Some (lit "hi")))
           None Scenario.welcomePost); reflexivity.
Defined.

(** ** Relative dates *)

Lemma lessThan_quotient (a n : Z) (b : positive) :
  FormatDate.lessThan
    (QArith_base.Qdiv (QArith_base.inject_Z a)
                      (QArith_base.inject_Z (Z.pos b))) n
  = (a <? n * Z.pos b)%Z.
Proof.
  unfold FormatDate.lessThan, QArith_base.Qle_bool, QArith_base.Qdiv,
    QArith_base.Qmult, QArith_base.Qinv, QArith_base.inject_Z.
  cbn [QArith_base.Qnum QArith_base.Qden].
  rewrite Pos.mul_1_l, Z.mul_1_r, Z.mul_1_r.
  destruct (Z.leb_spec (n * Z.pos b) a), (Z.ltb_spec a (n * Z.pos b));
    simpl; try reflexivity; lia.
Qed.

Lemma floor_quotient (a : Z) (b : positive) :
  Qround.Qfloor
    (QArith_base.Qdiv (QArith_base.inject_Z a)
                      (QArith_base.inject_Z (Z.pos b)))
  = (a / Z.pos b)%Z.
Proof.
  unfold Qround.Qfloor, QArith_base.Qdiv, QArith_base.Qmult, QArith_base.Qinv,
    QArith_base.inject_Z.
  cbn [QArith_base.Qnum QArith_base.Qden].
  now rewrite Pos.mul_1_l, Z.mul_1_r.
Qed.

Lemma lessThan_weeks (a n : Z) (b : positive) :
  FormatDate.lessThan
    (QArith_base.Qdiv
       (QArith_base.Qdiv (QArith_base.inject_Z a)
                         (QArith_base.inject_Z (Z.pos b)))
       (QArith_base.inject_Z 7)) n
  = (a <? n * Z.pos (b * 7))%Z.
Proof.
  unfold FormatDate.lessThan, QArith_base.Qle_bool, QArith_base.Qdiv,
    QArith_base.Qmult, QArith_base.Qinv, QArith_base.inject_Z.
  cbn [QArith_base.Qnum QArith_base.Qden].
  rewrite Pos.mul_1_l, !Z.mul_1_r.
  destruct (Z.leb_spec (n * Z.pos (b * 7)) a),
    (Z.ltb_spec a (n * Z.pos (b * 7))); simpl; try reflexivity; lia.
Qed.

Lemma floor_weeks (a : Z) (b : positive) :
  Qround.Qfloor
    (QArith_base.Qdiv
       (QArith_base.Qdiv (QArith_base.inject_Z a)
                         (QArith_base.inject_Z (Z.pos b)))
       (QArith_base.inject_Z 7))
  = (a / Z.pos (b * 7))%Z.
Proof.
  unfold Qround.Qfloor, QArith_base.Qdiv, QArith_base.Qmult, QArith_base.Qinv,
    QArith_base.inject_Z.
  cbn [QArith_base.Qnum QArith_base.Qden].
  now rewrite Pos.mul_1_l, !Z.mul_1_r.
Qed.

(** What [formatDate] reads in whole numbers: the age in milliseconds
    against the five thresholds, and whole-number quotients. *)
Lemma formatDate_whole (toLocaleDateString : DateTime -> jsstring)
  (now date : DateTime) :
  FormatDate.formatDate toLocaleDateString now date
  = let age := (now - date)%Z in
    if (age <? 0)%Z then toLocaleDateString date
    else if (age <? 60000)%Z then lit "Just now"
    else if (age <? 3600000)%Z
    then FormatDate.decimal (age / 60000) ++ lit "m ago"
    else if (age <? 86400000)%Z
    then FormatDate.decimal (age / 3600000) ++ lit "h ago"
    else if (age <? 604800000)%Z
    then FormatDate.decimal (age / 86400000) ++ lit "d ago"
    else if (age <? 2419200000)%Z
    then FormatDate.decimal (age / 604800000) ++ lit "w ago"
    else toLocaleDateString date.
Proof.
  unfold FormatDate.formatDate. cbv zeta.
  change (1000 * 60 * 60 * 24)%Z with (Z.pos 86400000).
  change (1000 * 60 * 60)%Z with (Z.pos 3600000).
  change (1000 * 60)%Z with (Z.pos 60000).
  rewrite !lessThan_quotient, !floor_quotient, lessThan_weeks, floor_weeks.
  reflexivity.
Qed.

(** The label of a date by its age in milliseconds: "Just now" under a
    minute; then whole minutes (1 to 59), whole hours (1 to 23), whole days
    (1 to 6) and whole weeks (1 to 3), each rounded down and never 0; the
    locale's date for a date in the future and from four weeks on. *)
Theorem formatDate_labels (toLocaleDateString : DateTime -> jsstring)
  (now date : DateTime) :
  let age := (now - date)%Z in
  let label := FormatDate.formatDate toLocaleDateString now date in
  ((age < 0 \/ 2419200000 <= age)%Z -> label = toLocaleDateString date)
  /\ ((0 <= age < 60000)%Z -> label = lit "Just now")
  /\ ((60000 <= age < 3600000)%Z ->
      label = FormatDate.decimal (age / 60000) ++ lit "m ago"
      /\ (1 <= age / 60000 <= 59)%Z)
  /\ ((3600000 <= age < 86400000)%Z ->
      label = FormatDate.decimal (age / 3600000) ++ lit "h ago"
      /\ (1 <= age / 3600000 <= 23)%Z)
  /\ ((86400000 <= age < 604800000)%Z ->
      label = FormatDate.decimal (age / 86400000) ++ lit "d ago"
      /\ (1 <= age / 86400000 <= 6)%Z)
  /\ ((604800000 <= age < 2419200000)%Z ->
      label = FormatDate.decimal (age / 604800000) ++ lit "w ago"
      /\ (1 <= age / 604800000 <= 3)%Z).
Proof.
  intros age label. subst label. rewrite formatDate_whole. fold age. cbv zeta.
  destruct (Z.ltb_spec age 0), (Z.ltb_spec age 60000),
    (Z.ltb_spec age 3600000), (Z.ltb_spec age 86400000),
    (Z.ltb_spec age 604800000), (Z.ltb_spec age 2419200000);
    repeat match goal with
           | |- _ /\ _ => split
           | |- _ -> _ => intros
           end;
    first [ lia | reflexivity
          | apply Z.div_le_lower_bound; lia
          | apply Z.lt_succ_r, Z.div_lt_upper_bound; lia ].
Qed.

Lemma formatDate_labels_witness :
  FormatDate.formatDate (fun _ => lit "1/1/2026") 1000000%Z 700000%Z
  = lit "5m ago".
Proof.
  destruct (formatDate_labels (fun _ => lit "1/1/2026") 1000000%Z 700000%Z)
    as (_ & _ & H & _).
  cbv zeta in H. destruct H as [H _]; [lia|].
  exact H.
Defined.

(** The counts in those labels have one or two digits, printed in base
    ten. *)
Theorem decimal_digits (n : Z) :
  (0 <= n < 60)%Z ->
  FormatDate.decimal n
  = if (n <? 10)%Z then [(48 + Z.to_N n)%N]
    else [(48 + Z.to_N (n / 10))%N; (48 + Z.to_N (n mod 10))%N].
Proof.
  intros H. rewrite <- (Z2Nat.id n) by lia.
  assert (Z.to_nat n < 60)%nat as Hk by lia.
  revert Hk. generalize (Z.to_nat n). intros k Hk.
  do 60 (destruct k as [|k]; [reflexivity|]). lia.
Qed.

Lemma decimal_digits_witness : FormatDate.decimal 42 = lit "42".
Proof.
  rewrite decimal_digits; [reflexivity|lia].
Defined.

(** ** The scenarios, run *)

Example orUnknown_cases :
  PostList.orUnknown (Some (lit "bob")) = lit "bob"
  /\ PostList.orUnknown (Some []) = lit "Unknown"
  /\ PostList.orUnknown None = lit "Unknown"
  /\ PostList.nonEmpty (Some (lit "text")) = Some (lit "text")
  /\ PostList.nonEmpty (Some []) = None.
Proof. repeat split. Qed.

Example trimmedText_cases :
  map trimmedText [lit "a b"; lit " "; []; lit " a"; lit "a "]
  = [true; false; false; false; false].
Proof. reflexivity. Qed.

Example session_rows :
  let st := performAll Scenario.session emptyStore in
  (map Location.slug (locations st), map Channel.slug (channels st),
   map Post.title (posts st), map Comment.content (comments st), nextId st)
  = ([lit "ann-arbor"], [lit "politics"], [lit "Welcome!"], [lit "first!"],
     5%N).
Proof. reflexivity. Qed.

Example welcome_summary :
  option_map
    (fun v => (PostList.PostView.title v, PostList.PostView.content v,
               PostList.PostView.score v, PostList.PostView.commentCount v,
               option_map PostList.channel_name (PostList.PostView.channel v)))
    (hd_error (PostList.fetchPosts (Some 1%N) None Scenario.withComments))
  = Some (lit "Welcome!", Some (lit "Hello everyone!"), 0%Z, 2%Z,
          Some (lit "Politics!!")).
Proof. reflexivity. Qed.

Example city_page :
  CityView.fetchLocationAndChannels (lit "ann-arbor") Scenario.withPost
  = Found (CityView.mkInfo 1%N (lit "Ann Arbor") (lit "ann-arbor") None
             (Some (lit "Michigan")),
           [CityView.mkCard 3%N (lit "Politics!!") (lit "politics") 1%Z 0%Z])
  /\ CityView.fetchLocationAndChannels (lit "detroit") Scenario.withPost
     = Failed (lit "City not found").
Proof. split; reflexivity. Qed.

Example channel_page :
  ChannelView.fetchLocationAndChannel (lit "ann-arbor") (lit "politics")
    Scenario.withPost = Found Scenario.politicsPage
  /\ ChannelView.fetchLocationAndChannel (lit "ann-arbor") (lit "golf")
       Scenario.withPost = Failed (lit "Channel not found")
  /\ ChannelView.fetchLocationAndChannel (lit "ypsilanti") (lit "politics")
       Scenario.withPost = Failed (lit "Channel not found").
Proof. repeat split. Qed.

Example post_page :
  CreatePost.fetchLocationAndChannels (lit "ann-arbor")
    (Some (lit "politics")) Scenario.withPolitics
  = Found (CreatePost.mkPage Scenario.annArborRef
             [CreatePost.mkOption 3%N (lit "Politics!!") (lit "politics")]
             (Some 3%N))
  /\ option_map CreatePost.page_selected
       (match CreatePost.fetchLocationAndChannels (lit "ann-arbor") None
                Scenario.withPolitics with
        | Found page => Some page
        | Failed _ => None
        end) = Some None.
Proof. split; reflexivity. Qed.

Example channel_selector :
  let page := CreatePost.mkPage Scenario.annArborRef
                [CreatePost.mkOption 3%N (lit "Politics!!") (lit "politics");
                 CreatePost.mkOption 7%N (lit "Golf") (lit "golf")] None in
  (CreatePost.selectChannel None page None,
   CreatePost.selectChannel None page (Some 2%nat),
   CreatePost.selectChannel None page (Some 0%nat),
   CreatePost.selectChannel (Some (lit "politics")) page (Some 2%nat))
  = (None, Some 7%N, None, None).
Proof. reflexivity. Qed.

Example formatDate_buckets :
  map (fun age => FormatDate.formatDate (fun _ => lit "3/1/2026")
                    10000000000%Z (10000000000 - age)%Z)
      [-1; 0; 59999; 60000; 3599999; 3600000; 86399999; 86400000; 604799999;
       604800000; 2419199999; 2419200000]%Z
  = [lit "3/1/2026"; lit "Just now"; lit "Just now"; lit "1m ago";
     lit "59m ago"; lit "1h ago"; lit "23h ago"; lit "1d ago"; lit "6d ago";
     lit "1w ago"; lit "3w ago"; lit "3/1/2026"].
Proof. vm_compute. reflexivity. Qed.

(** ** Instances *)

Lemma rejected_forms_store_nothing_witness :
  fst (CreateCity.handleSubmit 40%Z Scenario.annArbor Scenario.withPolitics)
  = Scenario.withPolitics.
Proof.
  destruct rejected_forms_store_nothing as [H _].
  apply (H 40%Z Scenario.annArbor Scenario.withPolitics DuplicateSlug).
  reflexivity.
Defined.

Lemma posts_stay_shaped_witness :
  Forall (fun p => shaped p = true)
         (posts (performAll Scenario.morePosts Scenario.withPolitics)).
Proof.
  apply (posts_stay_shaped Scenario.morePosts Scenario.withPolitics).
  constructor.
Defined.

Lemma channel_page_never_changes_witness :
  ChannelView.fetchLocationAndChannel (lit "ann-arbor") (lit "politics")
    (performAll Scenario.morePosts Scenario.withPolitics)
  = Found Scenario.politicsPage.
Proof. apply channel_page_never_changes. reflexivity. Defined.
